(** * The WASM host of go-examples: capability functions over guest memory

    A shallow embedding of the host side of the WASM example
    (package main: [wasmModule.getField], [putField], [log],
    [getCurrentTime], [malloc]) together with the properties the
    specification states about it.

    Conventions of the embedding:
    - Go's [int32] is a [Z] kept in range by [int32], its wrap-around
      written out; [uint32] and [uint64] likewise;
    - the guest's linear memory ([memory.Data()]) is a [list byte]; a Go
      slice expression on it is [slice], which panics exactly where the Go
      runtime does;
    - a host function is a computation in the monad [M]: it threads the
      module (whose instance the guest allocator may change) and the host's
      log, and ends in a value or in a runtime panic;
    - [encoding/json] and the guest's code are outside the repository: the
      two codec entry points are section variables, the guest's allocator is
      the [mallocFunc] field of the module, and the wall clock reading is an
      argument of [getCurrentTime].

    Two smaller packages of the repository follow the host: [fieldsyml]
    ([ResolveECSReferences], [lookupECSField]) and [terraform]
    ([Module.MarshalJSON]). *)

From Stdlib Require Import ZArith Lia.
From Stdlib.Strings Require Import String Byte.
From stdpp Require Import base list gmap strings.

Open Scope Z_scope.

(** ** Machine integers *)

Definition int32 (z : Z) : Z := (z + 2 ^ 31) mod 2 ^ 32 - 2 ^ 31.
Definition uint32 (z : Z) : Z := z mod 2 ^ 32.
Definition uint64 (z : Z) : Z := z mod 2 ^ 64.

Definition is_int32 (z : Z) : Prop := - 2 ^ 31 <= z < 2 ^ 31.

(** [byte(v)]: the low eight bits. *)
Definition byte_of_Z (z : Z) : byte :=
  default "000"%byte (Byte.of_N (Z.to_N (Z.land z 255))).

Definition Z_of_byte (b : byte) : Z := Z.of_N (Byte.to_N b).

#[global] Instance byte_eqdec : EqDecision byte := Byte.byte_eq_dec.

(** ** Enumerations of the host ABI *)

Inductive LogLevel :=
| LogLevelDebug
| LogLevelInfo
| LogLevelWarn
| LogLevelError
| LogLevelCritical.

Definition LogLevel_int32 (l : LogLevel) : Z :=
  match l with
  | LogLevelDebug => 0
  | LogLevelInfo => 1
  | LogLevelWarn => 2
  | LogLevelError => 3
  | LogLevelCritical => 4
  end.

Inductive Status :=
| StatusOK
| StatusInternalFailure
| StatusInvalidArgument
| StatusNotFound.

Definition Status_int32 (s : Status) : Z :=
  match s with
  | StatusOK => 0
  | StatusInternalFailure => 1
  | StatusInvalidArgument => 2
  | StatusNotFound => 3
  end.

(** ** Values, errors and events *)

(** [wasmer.Value] of kind I32, the only kind the four signatures use.
    [I32] reads it back as a Go [int32]. *)
Record Value := NewI32 { Value_bits : Z }.

Definition I32 (v : Value) : Z := int32 (Value_bits v).

(** The errors the host functions build or pass on. *)
Inductive error :=
| ErrArgCount (fn : string) (want got : nat)
| ErrGetMemory (cause : string)
| ErrDecode (cause : string)
| ErrMarshal (cause : string)
| ErrGuest (cause : string).

(** What a host function hands back to the engine: [([]wasmer.Value, error)],
    a nil slice being [None]. *)
Record result := Result {
  values : option (list Value);
  err : option error
}.

(** The runtime panic of a slice expression out of range. *)
Inductive panic :=
| SliceBoundsOutOfRange (lo hi : Z) (cap : nat).

Section Host.

(** The decoded JSON document, as [json.Unmarshal] stores it in an
    [interface{}]. *)
Variable jvalue : Type.

(** [json.Marshal] on a Go string and [json.Unmarshal] into [interface{}]. *)
Variable json_Marshal : list byte -> list byte + string.
Variable json_Unmarshal : list byte -> jvalue + string.

(** What the host does besides touching guest memory: lines written with the
    [log] package, and calls of the guest's exported allocator. *)
Inductive event :=
| Log_get_field (data : list byte)
| Log_put_field_raw (key value : list byte)
| Log_put_field (key : list byte) (v : jvalue)
| Log_guest (level : Z) (data : list byte)
| Call_malloc (size : Z).

(** ** The instance and the module *)

(** The instance as the host sees it: the error of looking up the export
    named [memory] ([None] when the export resolves), the bytes of the linear
    memory, and the rest of the guest's state, which only guest code reads. *)
Record Instance := {
  GetMemory_err : option string;
  Data : list byte;
  globals : list Z
}.

Record wasmModule := {
  instance : Instance;
  mallocFunc : Z -> Instance -> (Z + string) * Instance
}.

Definition with_instance (m : wasmModule) (i : Instance) : wasmModule :=
  {| instance := i; mallocFunc := mallocFunc m |}.

Definition with_Data (m : wasmModule) (d : list byte) : wasmModule :=
  with_instance m
    {| GetMemory_err := GetMemory_err (instance m);
       Data := d;
       globals := globals (instance m) |}.

(** ** The monad of host computations *)

Record host := Host {
  module : wasmModule;
  events : list event
}.

Inductive outcome (A : Type) :=
| Done (a : A)
| Panicked (p : panic).
Arguments Done {A} a.
Arguments Panicked {A} p.

Definition M (A : Type) : Type := host -> outcome A * host.

Definition ret {A} (a : A) : M A := fun h => (Done a, h).

Definition bind {A B} (c : M A) (k : A -> M B) : M B :=
  fun h =>
    match c h with
    | (Done a, h') => k a h'
    | (Panicked p, h') => (Panicked p, h')
    end.

Notation "'let*' x ':=' c 'in' k" := (bind c (fun x => k))
  (at level 10, x name, c at level 100, k at level 200).
Notation "'run' c 'in' k" := (bind c (fun _ => k))
  (at level 10, c at level 100, k at level 200).

Definition emit (e : event) : M unit :=
  fun h => (Done tt, {| module := module h; events := events h ++ [e] |}).

(** ** Guest memory *)

(** [m.instance.Exports.GetMemory("memory")]. *)
Definition GetMemory : M (option string) :=
  fun h => (Done (GetMemory_err (instance (module h))), h).

(** The bounds check of [s[lo:hi]] on a slice whose capacity is its length:
    [0 <= lo <= hi <= cap(s)]. *)
Definition slice_ok (mem : list byte) (lo hi : Z) : bool :=
  (0 <=? lo) && (lo <=? hi) && (hi <=? Z.of_nat (length mem)).

(** [memory.Data()[lo:hi]] read as a value (as [string(data)] does). *)
Definition slice (lo hi : Z) : M (list byte) :=
  fun h =>
    let mem := Data (instance (module h)) in
    if slice_ok mem lo hi
    then (Done (take (Z.to_nat (hi - lo)) (drop (Z.to_nat lo) mem)), h)
    else (Panicked (SliceBoundsOutOfRange lo hi (length mem)), h).

(** [copy(memory.Data()[lo:hi], src)]: the slice expression first, then
    [min(hi-lo, len(src))] bytes. *)
Definition copy_to (lo hi : Z) (src : list byte) : M unit :=
  fun h =>
    let mem := Data (instance (module h)) in
    if slice_ok mem lo hi
    then (Done tt,
          {| module :=
               with_Data (module h)
                 (list_inserts (Z.to_nat lo) (take (Z.to_nat (hi - lo)) src) mem);
             events := events h |})
    else (Panicked (SliceBoundsOutOfRange lo hi (length mem)), h).

(** [binary.LittleEndian]: byte [i] is [byte(v >> (8*i))]. *)
Fixpoint le_bytes (n : nat) (v : Z) : list byte :=
  match n with
  | O => []
  | S n' => byte_of_Z v :: le_bytes n' (Z.shiftr v 8)
  end.

Fixpoint le_value (bs : list byte) : Z :=
  match bs with
  | [] => 0
  | b :: bs' => Z.lor (Z_of_byte b) (Z.shiftl (le_value bs') 8)
  end.

Definition PutUint32 (lo hi : Z) (v : Z) : M unit := copy_to lo hi (le_bytes 4 v).
Definition PutUint64 (lo hi : Z) (v : Z) : M unit := copy_to lo hi (le_bytes 8 v).

(** ** The guest's allocator *)

(** [wasmModule.malloc]: calls the export, which runs guest code on the
    instance; the export is typed [i32 -> i32], so that the assertion
    [ptr.(int32)] holds. *)
Definition malloc (size : Z) : M (Z + string) :=
  fun h =>
    let '(r, i') := mallocFunc (module h) size (instance (module h)) in
    (Done match r with inl ptr => inl (int32 ptr) | inr e => inr e end,
     {| module := with_instance (module h) i';
        events := events h ++ [Call_malloc size] |}).

(** ** The capability functions *)

(** The placeholder record: the one field the host knows, and its value. *)
Definition message : list byte := list_byte_of_string "message".
Definition raw : list byte :=
  list_byte_of_string "df00000001a464617461ab68656c6c6f20776f726c64".

Definition ok (s : Z) : M result := ret (Result (Some [NewI32 s]) None).
Definition fail (e : error) : M result := ret (Result None (Some e)).
Definition fail_with (s : Status) (e : error) : M result :=
  ret (Result (Some [NewI32 (Status_int32 s)]) (Some e)).

Definition getField (args : list Value) : M result :=
  match args with
  | [a0; a1; a2; a3] =>
      let dataPtr := I32 a0 in
      let dataLen := I32 a1 in
      let rtnPtr := I32 a2 in
      let rtnLen := I32 a3 in
      let* memory := GetMemory in
      match memory with
      | Some e => fail (ErrGetMemory e)
      | None =>
          let* data := slice dataPtr (int32 (dataPtr + dataLen)) in
          run emit (Log_get_field data) in
          if decide (data = message) then
            match json_Marshal raw with
            | inr e => fail (ErrMarshal e)
            | inl value =>
                let valueSize := int32 (Z.of_nat (length value)) in
                let* r := malloc valueSize in
                match r with
                | inr e => fail (ErrGuest e)
                | inl valuePtr =>
                    run copy_to valuePtr (int32 (valuePtr + valueSize)) value in
                    run PutUint32 rtnPtr (int32 (rtnPtr + 4)) (uint32 valuePtr) in
                    run PutUint32 rtnLen (int32 (rtnLen + 4)) (uint32 valueSize) in
                    ok 0
                end
            end
          else ok 0
      end
  | _ => fail (ErrArgCount "get_field" 4 (length args))
  end.

Definition putField (args : list Value) : M result :=
  match args with
  | [a0; a1; a2; a3] =>
      let keyPtr := I32 a0 in
      let keyLen := I32 a1 in
      let valuePtr := I32 a2 in
      let valueLen := I32 a3 in
      let* memory := GetMemory in
      match memory with
      | Some e => fail_with StatusInternalFailure (ErrGetMemory e)
      | None =>
          let* key := slice keyPtr (int32 (keyPtr + keyLen)) in
          let* value := slice valuePtr (int32 (valuePtr + valueLen)) in
          run emit (Log_put_field_raw key value) in
          match json_Unmarshal value with
          | inr e => fail_with StatusInvalidArgument (ErrDecode e)
          | inl v =>
              run emit (Log_put_field key v) in
              ok (Status_int32 StatusOK)
          end
      end
  | _ => fail (ErrArgCount "put_field" 4 (length args))
  end.

Definition log (args : list Value) : M result :=
  match args with
  | [a0; a1; a2] =>
      let level := I32 a0 in
      let dataPtr := I32 a1 in
      let dataLen := I32 a2 in
      let* memory := GetMemory in
      match memory with
      | Some e => fail (ErrGetMemory e)
      | None =>
          let* data := slice dataPtr (int32 (dataPtr + dataLen)) in
          run emit (Log_guest level data) in
          ok 0
      end
  | _ => fail (ErrArgCount "log" 3 (length args))
  end.

(** [now] is the reading [time.Now().UnixNano()], an [int64]. *)
Definition getCurrentTime (now : Z) (args : list Value) : M result :=
  match args with
  | [a0] =>
      let ptr := I32 a0 in
      let* memory := GetMemory in
      match memory with
      | Some e => fail (ErrGetMemory e)
      | None =>
          run PutUint64 ptr (int32 (ptr + 8)) (uint64 now) in
          ok 0
      end
  | _ => fail (ErrArgCount "elastic_get_current_time_nanoseconds" 1 (length args))
  end.

End Host.

Arguments Done {A} a.
Arguments Panicked {A} p.
Arguments Log_get_field {jvalue} data.
Arguments Log_put_field_raw {jvalue} key value.
Arguments Log_put_field {jvalue} key v.
Arguments Log_guest {jvalue} level data.
Arguments Call_malloc {jvalue} size.
Arguments Host {jvalue} module events.
Arguments module {jvalue} h.
Arguments events {jvalue} h.
Arguments ret {jvalue A} a h.
Arguments bind {jvalue A B} c k h.
Arguments emit {jvalue} e h.
Arguments GetMemory {jvalue} h.
Arguments slice {jvalue} lo hi h.
Arguments copy_to {jvalue} lo hi src h.
Arguments PutUint32 {jvalue} lo hi v h.
Arguments PutUint64 {jvalue} lo hi v h.
Arguments malloc {jvalue} size h.
Arguments ok {jvalue} s h.
Arguments fail {jvalue} e h.
Arguments fail_with {jvalue} s e h.
Arguments getField {jvalue} json_Marshal args h.
Arguments putField {jvalue} json_Unmarshal args h.
Arguments log {jvalue} args h.
Arguments getCurrentTime {jvalue} now args h.

(** ** A reference codec

    [encoding/json] on the inputs the host gives it, for the examples:
    [Marshal] of a Go string, and a reader of JSON documents standing for
    [Unmarshal] into an [interface{}].  Strings are kept as their source
    text, numbers as their literal, and the members of an object in input
    order; bytes above [0x7f] are copied by [Marshal] as well-formed UTF-8
    is. *)
Module Json.

#[local] Set Warnings "-register-all".

Inductive json :=
| JNull
| JBool (b : bool)
| JNumber (lit : list byte)
| JString (text : list byte)
| JArray (items : list json)
| JObject (members : list (list byte * json)).

Definition quote : byte := x22.
Definition backslash : byte := x5c.

Definition code (b : byte) : N := Byte.to_N b.

Definition hex_digit (n : N) : byte :=
  nth (N.to_nat n) (list_byte_of_string "0123456789abcdef") "0"%byte.

(** The bytes [Marshal] copies unchanged: ASCII from the space on, without
    the quote, the backslash and the three characters escaped for HTML. *)
Definition html_safe (b : byte) : bool :=
  (32 <=? code b)%N &&
  negb (bool_decide (b ∈ [quote; backslash; "&"; "<"; ">"]%byte)).

Definition escape (b : byte) : list byte :=
  if html_safe b then [b]
  else if bool_decide (b = quote) || bool_decide (b = backslash)
  then [backslash; b]
  else if bool_decide (b = x0a) then [backslash; "n"%byte]
  else if bool_decide (b = x0d) then [backslash; "r"%byte]
  else if bool_decide (b = x09) then [backslash; "t"%byte]
  else [backslash; "u"; "0"; "0";
        hex_digit (code b / 16); hex_digit (code b mod 16)]%byte.

Definition Marshal (s : list byte) : list byte + string :=
  inl (quote :: concat (map escape s) ++ [quote]).

Definition is_ws (b : byte) : bool :=
  bool_decide (b ∈ [" "; x09; x0a; x0d]%byte).

Definition is_digit (b : byte) : bool :=
  (48 <=? code b)%N && (code b <=? 57)%N.

Definition is_hex (b : byte) : bool :=
  is_digit b
  || ((97 <=? code b)%N && (code b <=? 102)%N)
  || ((65 <=? code b)%N && (code b <=? 70)%N).

Fixpoint skip_ws (bs : list byte) : list byte :=
  match bs with
  | b :: bs' => if is_ws b then skip_ws bs' else bs
  | [] => []
  end.

Fixpoint digits (bs : list byte) : list byte * list byte :=
  match bs with
  | b :: bs' =>
      if is_digit b then let '(ds, rest) := digits bs' in (b :: ds, rest)
      else ([], bs)
  | [] => ([], [])
  end.

(** A number literal: an optional minus, an integer part without leading
    zero, an optional fraction and an optional exponent. *)
Definition number (bs : list byte) : option (list byte * list byte) :=
  let '(sign, bs) :=
    match bs with
    | "-"%byte :: bs' => (["-"%byte], bs')
    | _ => ([], bs)
    end in
  let '(int, bs) := digits bs in
  match int with
  | [] => None
  | d :: ds =>
      if bool_decide (d = "0"%byte) && negb (bool_decide (ds = [])) then None
      else
        let frac :=
          match bs with
          | "."%byte :: bs' =>
              let '(fs, rest) := digits bs' in
              if bool_decide (fs = []) then None
              else Some ("."%byte :: fs, rest)
          | _ => Some ([], bs)
          end in
        '(fs, bs) ← frac;
        let exp :=
          match bs with
          | e :: bs' =>
              if bool_decide (e ∈ ["e"; "E"]%byte) then
                let '(sg, bs'') :=
                  match bs' with
                  | s :: r =>
                      if bool_decide (s ∈ ["+"; "-"]%byte) then ([s], r)
                      else ([], bs')
                  | [] => ([], [])
                  end in
                let '(es, rest) := digits bs'' in
                if bool_decide (es = []) then None
                else Some (e :: sg ++ es, rest)
              else Some ([], bs)
          | [] => Some ([], bs)
          end in
        '(es, bs) ← exp;
        Some (sign ++ int ++ fs ++ es, bs)
  end.

(** The text of a string after its opening quote, up to the closing one:
    no control character, and after a backslash one of the escapes. *)
Fixpoint string_body (bs : list byte) : option (list byte * list byte) :=
  match bs with
  | [] => None
  | b :: bs' =>
      if bool_decide (b = quote) then Some ([], bs')
      else if (code b <? 32)%N then None
      else if bool_decide (b = backslash) then
        match bs' with
        | "u"%byte :: h1 :: h2 :: h3 :: h4 :: bs'' =>
            if forallb is_hex [h1; h2; h3; h4] then
              '(t, rest) ← string_body bs'';
              Some (b :: "u"%byte :: h1 :: h2 :: h3 :: h4 :: t, rest)
            else None
        | e :: bs'' =>
            if bool_decide
                 (e ∈ [quote; backslash; "/"; "b"; "f"; "n"; "r"; "t"]%byte)
            then '(t, rest) ← string_body bs''; Some (b :: e :: t, rest)
            else None
        | [] => None
        end
      else '(t, rest) ← string_body bs'; Some (b :: t, rest)
  end.

Fixpoint value (fuel : nat) (bs : list byte) : option (json * list byte) :=
  match fuel with
  | O => None
  | S fuel' =>
      match skip_ws bs with
      | "n" :: "u" :: "l" :: "l" :: rest => Some (JNull, rest)
      | "t" :: "r" :: "u" :: "e" :: rest => Some (JBool true, rest)
      | "f" :: "a" :: "l" :: "s" :: "e" :: rest => Some (JBool false, rest)
      | x22 :: rest =>
          '(t, rest') ← string_body rest; Some (JString t, rest')
      | "[" :: rest =>
          match skip_ws rest with
          | "]" :: rest' => Some (JArray [], rest')
          | _ => '(xs, rest') ← items fuel' rest; Some (JArray xs, rest')
          end
      | "{" :: rest =>
          match skip_ws rest with
          | "}" :: rest' => Some (JObject [], rest')
          | _ => '(kvs, rest') ← members fuel' rest; Some (JObject kvs, rest')
          end
      | bs' => '(lit, rest) ← number bs'; Some (JNumber lit, rest)
      end%byte
  end
with items (fuel : nat) (bs : list byte) : option (list json * list byte) :=
  match fuel with
  | O => None
  | S fuel' =>
      '(x, rest) ← value fuel' bs;
      match skip_ws rest with
      | "," :: rest' => '(xs, rest'') ← items fuel' rest'; Some (x :: xs, rest'')
      | "]" :: rest' => Some ([x], rest')
      | _ => None
      end%byte
  end
with members (fuel : nat) (bs : list byte)
  : option (list (list byte * json) * list byte) :=
  match fuel with
  | O => None
  | S fuel' =>
      match skip_ws bs with
      | x22 :: rest =>
          '(k, rest) ← string_body rest;
          match skip_ws rest with
          | ":" :: rest =>
              '(x, rest) ← value fuel' rest;
              match skip_ws rest with
              | "," :: rest' =>
                  '(kvs, rest'') ← members fuel' rest';
                  Some ((k, x) :: kvs, rest'')
              | "}" :: rest' => Some ([(k, x)], rest')
              | _ => None
              end
          | _ => None
          end
      | _ => None
      end%byte
  end.

Definition Unmarshal (data : list byte) : json + string :=
  match value (2 * length data + 2) data with
  | Some (v, rest) =>
      if bool_decide (skip_ws rest = []) then inl v
      else inr "invalid character after top-level value"%string
  | None => inr "invalid character or unexpected end of JSON input"%string
  end.

End Json.
(** ** A sample guest

    The memory of a small instance, with the name [message] at offset 0 and
    the document [[1,2]] after it, and a bump allocator that keeps its break in the first global: it fails when
    the request does not fit below the end of the memory. *)
Module Sample.

Definition zeros (n : nat) : list byte := replicate n "000"%byte.

Definition memory0 : list byte :=
  list_byte_of_string "message[1,2]" ++ zeros 116.

Definition bump (size : Z) (i : Instance) : (Z + string) * Instance :=
  match globals i with
  | top :: gs =>
      if (0 <=? size) && (top + size <=? Z.of_nat (length (Data i)))
      then (inl top,
            {| GetMemory_err := GetMemory_err i;
               Data := Data i;
               globals := (top + size) :: gs |})
      else (inr "unreachable"%string, i)
  | [] => (inr "unreachable"%string, i)
  end.

Definition instance0 : Instance :=
  {| GetMemory_err := None; Data := memory0; globals := [64] |}.

(** The same instance with its heap exhausted. *)
Definition instance_full : Instance :=
  {| GetMemory_err := None; Data := memory0; globals := [128] |}.

Definition host_of (i : Instance) : host Json.json :=
  {| module := {| instance := i; mallocFunc := bump |}; events := [] |}.

Definition args (zs : list Z) : list Value := map NewI32 zs.

Definition h0 : host Json.json := host_of instance0.
Definition h_full : host Json.json := host_of instance_full.

(** The encoding of the placeholder value: [raw] between quotes. *)
Definition encoded : list byte := Json.quote :: raw ++ [Json.quote].

End Sample.
(** ** Valid and invalid pairs *)

(** A (pointer, length) pair as the guest means it, two unsigned 32-bit
    numbers: invalid when the sum overflows 32 bits or passes the end of the
    memory. *)
Definition bad_pair (mem : list byte) (ptr len : Z) : Prop :=
  2 ^ 32 <= uint32 ptr + uint32 len \/
  Z.of_nat (length mem) < uint32 ptr + uint32 len.

(** The pairs the host's slice expression [mem[ptr : ptr+len]] accepts. *)
Definition in_bounds (mem : list byte) (ptr len : Z) : Prop :=
  0 <= ptr /\ 0 <= len /\ ptr + len <= Z.of_nat (length mem) /\
  ptr + len < 2 ^ 31.

(** The bytes of [mem] at [ptr], [len] of them. *)
Definition bytes_at (mem : list byte) (ptr len : Z) : list byte :=
  take (Z.to_nat len) (drop (Z.to_nat ptr) mem).

(** Two ranges that share no byte. *)
Definition disjoint (p1 n1 p2 n2 : Z) : Prop :=
  p1 + n1 <= p2 \/ p2 + n2 <= p1.

(** A computation that stopped on the bounds check of a slice expression,
    with the host as it was: same module, same memory, nothing logged. *)
Definition out_of_bounds {jvalue A} (r : outcome A * host jvalue)
    (h : host jvalue) : Prop :=
  exists lo hi,
    r = (Panicked
           (SliceBoundsOutOfRange lo hi (length (Data (instance (module h))))),
         h).

(** The memory a computation leaves. *)
Definition memory_after {jvalue A} (r : outcome A * host jvalue) : list byte :=
  Data (instance (module (snd r))).

(** The status a host function reports in band: the single I32 of its
    values, when it returned any. *)
Definition status_of (o : outcome result) : option Z :=
  match o with
  | Done {| values := Some [v] |} => Some (I32 v)
  | _ => None
  end.

(** Repeated calls of get-current-time within one invocation: each call
    takes its own clock reading and out pointer, and the guest reads the
    eight bytes back as a little-endian number right after the call. The
    run stops at the first call that does not return. *)
Fixpoint clock_calls {jvalue} (calls : list (Z * Value)) (h : host jvalue)
    : list Z :=
  match calls with
  | [] => []
  | (now, a) :: rest =>
      match getCurrentTime now [a] h with
      | (Done _, h') =>
          le_value (bytes_at (Data (instance (module h'))) (I32 a) 8)
          :: clock_calls rest h'
      | (Panicked _, _) => []
      end
  end.

(** ** Package fieldsyml: references to ECS fields

    [ResolveECSReferences] and [lookupECSField]. The package [ecs] and the
    declaration of [FlatField] are outside the file: the two lookups of
    [ecs] are section variables, and [FlatField] has the six fields the two
    functions touch, the types of [Source] and [SourceLine] and whatever
    else the struct declares being parameters with their zero values. *)
Module Fieldsyml.

(** What [lookupECSField] reads of an [ecs.Field]. *)
Record ecs_Field := {
  FlatName : string;
  ecs_Type : string;
  ecs_Description : string
}.

Section Resolve.

Variables source line other : Type.
Variable source0 : source.
Variable line0 : line.
Variable other0 : other.

(** [ecs.GetField], [None] being the nil pointer, and [ecs.GetFieldSet]. *)
Variable GetField : string -> option ecs_Field.
Variable GetFieldSet : string -> list ecs_Field.

Record FlatField := {
  Name : string;
  Type_ : string;
  Description : string;
  External : string;
  Source : source;
  SourceLine : line;
  rest : other
}.

(** The struct literal of [lookupECSField]: the fields it does not name
    are zero. *)
Definition of_ecs (f : ecs_Field) : FlatField :=
  {| Name := FlatName f;
     Type_ := ecs_Type f;
     Description := ecs_Description f;
     External := "ecs";
     Source := source0;
     SourceLine := line0;
     rest := other0 |}.

Definition lookupECSField (name : string) : list FlatField :=
  match GetField name with
  | Some f => [of_ecs f]
  | None =>
      foldl (fun fields f => fields ++ [of_ecs f]) [] (GetFieldSet name)
  end.

(** The two assignments in the inner loop of [ResolveECSReferences]. *)
Definition with_source (f ecsField : FlatField) : FlatField :=
  {| Name := Name ecsField;
     Type_ := Type_ ecsField;
     Description := Description ecsField;
     External := External ecsField;
     Source := Source f;
     SourceLine := SourceLine f;
     rest := rest ecsField |}.

(** One turn of the outer loop on [(out, hasUnresolved)]. *)
Definition resolve_step (acc : list FlatField * bool) (f : FlatField)
    : list FlatField * bool :=
  let '(out, hasUnresolved) := acc in
  if negb (bool_decide (External f = "ecs")) then (out ++ [f], hasUnresolved)
  else
    let fields := lookupECSField (Name f) in
    match fields with
    | [] => (out ++ [f], true)
    | _ =>
        (foldl (fun out ecsField => out ++ [with_source f ecsField]) out fields,
         hasUnresolved)
    end.

Definition ResolveECSReferences (flat : list FlatField)
    : list FlatField * bool :=
  foldl resolve_step ([], false) flat.

(** What one input field contributes to the result: a reference to ECS that
    has definitions is replaced by them, any other field is kept. *)
Definition is_ecs (f : FlatField) : bool := bool_decide (External f = "ecs").

Definition unresolved (f : FlatField) : bool :=
  is_ecs f &&
  match lookupECSField (Name f) with [] => true | _ => false end.

Definition expand (f : FlatField) : list FlatField :=
  if is_ecs f && negb (unresolved f)
  then map (with_source f) (lookupECSField (Name f))
  else [f].

End Resolve.

Arguments Name {source line other} f.
Arguments Type_ {source line other} f.
Arguments Description {source line other} f.
Arguments External {source line other} f.
Arguments Source {source line other} f.
Arguments SourceLine {source line other} f.
Arguments rest {source line other} f.
Arguments with_source {source line other} f ecsField.
Arguments is_ecs {source line other} f.
Arguments of_ecs {source line other} source0 line0 other0 f.
Arguments lookupECSField {source line other} source0 line0 other0
  GetField GetFieldSet name.
Arguments resolve_step {source line other} source0 line0 other0
  GetField GetFieldSet acc f.
Arguments ResolveECSReferences {source line other} source0 line0 other0
  GetField GetFieldSet flat.
Arguments unresolved {source line other} source0 line0 other0
  GetField GetFieldSet f.
Arguments expand {source line other} source0 line0 other0
  GetField GetFieldSet f.

(** A small ECS: one field, and one field set of two fields. *)
Module Sample.

Definition host_name : ecs_Field :=
  {| FlatName := "host.name"; ecs_Type := "keyword";
     ecs_Description := "Name of the host." |}.

Definition geo_city : ecs_Field :=
  {| FlatName := "geo.city_name"; ecs_Type := "keyword";
     ecs_Description := "City name." |}.

Definition geo_location : ecs_Field :=
  {| FlatName := "geo.location"; ecs_Type := "geo_point";
     ecs_Description := "Longitude and latitude." |}.

Definition GetField (name : string) : option ecs_Field :=
  if bool_decide (name = "host.name") then Some host_name else None.

Definition GetFieldSet (name : string) : list ecs_Field :=
  if bool_decide (name = "geo") then [geo_city; geo_location] else [].

Definition field (name external : string) (src : string) (ln : Z)
    : FlatField string Z unit :=
  {| Name := name; Type_ := EmptyString; Description := EmptyString;
     External := external; Source := src; SourceLine := ln; rest := tt |}.

Definition lookup :=
  lookupECSField EmptyString 0 tt GetField GetFieldSet.
Definition resolve :=
  ResolveECSReferences EmptyString 0 tt GetField GetFieldSet.

Definition own : list (FlatField string Z unit) :=
  [field "message" EmptyString "fields.yml" 1;
   field "event.id" EmptyString "fields.yml" 5].

Definition refs : list (FlatField string Z unit) :=
  [field "host.name" "ecs" "ecs.yml" 2; field "geo" "ecs" "ecs.yml" 4].

Definition dangling : FlatField string Z unit :=
  field "no.such.field" "ecs" "ecs.yml" 9.

End Sample.

End Fieldsyml.

(** ** Package terraform: the JSON form of a module block

    [Module.MarshalJSON]. A Go map is a [gmap]; [any] and [json.Marshal] on
    a map are parameters, as is the order in which [range] visits the
    entries of [m.Params], which the language leaves open. *)
Module Terraform.

Section Marshal.

Variable any : Type.

(** A Go string stored in an interface value. *)
Variable any_of_string : string -> any.

Variable json_Marshal : gmap string any -> list byte + string.

Record Module_ := {
  Source : string;
  Params : gmap string any
}.

(** The map [clone] when the loop has visited the entries in [order] and
    the key [source] has been set. *)
Definition clone_in (order : list (string * any)) (m : Module_)
    : gmap string any :=
  <["source" := any_of_string (Source m)]>
    (foldl (fun clone kv => <[kv.1 := kv.2]> clone) ∅ order).

Definition MarshalJSON_in (order : list (string * any)) (m : Module_)
    : list byte + string :=
  json_Marshal (clone_in order m).

(** With the order [map_to_list] gives. *)
Definition MarshalJSON (m : Module_) : list byte + string :=
  MarshalJSON_in (map_to_list (Params m)) m.

End Marshal.

Arguments Source {any} m.
Arguments Params {any} m.

(** A module block whose parameters name [source] themselves. *)
Module Sample.

Definition order : list (string * string) :=
  [("name", "main"); ("source", "elsewhere"); ("cidr", "10.0.0.0/16")]%string.

Definition block : Module_ string :=
  {| Source := "./modules/vpc"; Params := list_to_map order |}.

End Sample.

End Terraform.

(** * Properties *)

(** ** The definitions at work *)

Example int32_wraps : int32 (2147483647 + 1) = -2147483648.
Proof. reflexivity. Qed.

Example uint32_of_minus_one : uint32 (I32 (NewI32 (-1))) = 4294967295.
Proof. reflexivity. Qed.

Example le_bytes_46 : le_bytes 4 46 = ["."; "000"; "000"; "000"]%byte.
Proof. reflexivity. Qed.

Example le_value_64 : le_value ["@"; "000"; "000"; "000"]%byte = 64.
Proof. reflexivity. Qed.

Example Marshal_raw : Json.Marshal raw = inl Sample.encoded.
Proof. reflexivity. Qed.

Example Marshal_escapes :
  Json.Marshal [ "a"; "<"; x0a ]%byte
  = inl (Json.quote :: list_byte_of_string "a\u003c\n" ++ [Json.quote]).
Proof. reflexivity. Qed.

Example Unmarshal_array :
  Json.Unmarshal (list_byte_of_string " [1, -2.5e3, true, null] ")
  = inl (Json.JArray
           [Json.JNumber (list_byte_of_string "1");
            Json.JNumber (list_byte_of_string "-2.5e3");
            Json.JBool true; Json.JNull]).
Proof. reflexivity. Qed.

Example Unmarshal_truncated :
  Json.Unmarshal (list_byte_of_string "[1,2")
  = inr "invalid character or unexpected end of JSON input"%string.
Proof. reflexivity. Qed.

Example Unmarshal_trailing :
  Json.Unmarshal (list_byte_of_string "1 2")
  = inr "invalid character after top-level value"%string.
Proof. reflexivity. Qed.

Example bump_twice :
  fst (Sample.bump 46 (snd (Sample.bump 46 Sample.instance0)))
  = inr "unreachable"%string.
Proof. reflexivity. Qed.

(** ** Machine integers *)

Lemma int32_range z : is_int32 (int32 z).
Proof.
  unfold is_int32, int32.
  pose proof (Z.mod_pos_bound (z + 2 ^ 31) (2 ^ 32) ltac:(lia)). lia.
Qed.

Lemma int32_small z : is_int32 z -> int32 z = z.
Proof.
  unfold is_int32, int32. intros H.
  rewrite Z.mod_small by lia. lia.
Qed.

Lemma I32_range v : is_int32 (I32 v).
Proof. apply int32_range. Qed.

Lemma int32_add_cases p l :
  is_int32 p -> is_int32 l ->
  int32 (p + l) = p + l \/ int32 (p + l) = p + l - 2 ^ 32 \/
  int32 (p + l) = p + l + 2 ^ 32.
Proof.
  unfold is_int32, int32. intros Hp Hl.
  destruct (Z_lt_dec (p + l) (- 2 ^ 31)) as [Hlo|Hlo];
    [|destruct (Z_lt_dec (p + l) (2 ^ 31)) as [Hhi|Hhi]].
  - right; right.
    replace (p + l + 2 ^ 31) with ((p + l + 2 ^ 32 + 2 ^ 31) + (-1) * 2 ^ 32)
      by lia.
    rewrite Z.mod_add by lia. rewrite Z.mod_small by lia. lia.
  - left. rewrite Z.mod_small by lia. lia.
  - right; left.
    replace (p + l + 2 ^ 31) with ((p + l - 2 ^ 32 + 2 ^ 31) + 1 * 2 ^ 32)
      by lia.
    rewrite Z.mod_add by lia. rewrite Z.mod_small by lia. lia.
Qed.

Lemma uint32_int32 p :
  is_int32 p -> uint32 p = if 0 <=? p then p else p + 2 ^ 32.
Proof.
  unfold is_int32, uint32. intros Hp.
  destruct (Z.leb_spec 0 p).
  - apply Z.mod_small. lia.
  - replace p with (p + 2 ^ 32 + (-1) * 2 ^ 32) at 1 by lia.
    rewrite Z.mod_add by lia. apply Z.mod_small. lia.
Qed.

(** ** The slice expression *)

Lemma slice_ok_true mem lo hi :
  slice_ok mem lo hi = true <-> 0 <= lo /\ lo <= hi /\ hi <= Z.of_nat (length mem).
Proof. unfold slice_ok. rewrite !andb_true_iff, !Z.leb_le. tauto. Qed.

(** On [int32] operands the slice expression accepts exactly the pairs that
    are [in_bounds]. *)
Lemma slice_ok_pair mem p l :
  is_int32 p -> is_int32 l ->
  slice_ok mem p (int32 (p + l)) = true <-> in_bounds mem p l.
Proof.
  intros Hp Hl. rewrite slice_ok_true. unfold in_bounds.
  pose proof (int32_add_cases p l Hp Hl) as Hc.
  pose proof (int32_range (p + l)) as Hr.
  unfold is_int32 in *. split.
  - intros (H0 & H1 & H2). lia.
  - intros (H0 & H1 & H2 & H3).
    rewrite int32_small by (unfold is_int32; lia). lia.
Qed.

Lemma bad_pair_not_in_bounds mem p l :
  is_int32 p -> is_int32 l -> bad_pair mem p l -> ~ in_bounds mem p l.
Proof.
  intros Hp Hl Hbad (H0 & H1 & H2 & H3). unfold bad_pair in Hbad.
  rewrite (uint32_int32 p Hp), (uint32_int32 l Hl) in Hbad.
  destruct (Z.leb_spec 0 p), (Z.leb_spec 0 l); lia.
Qed.

Lemma bad_pair_slice mem p l :
  is_int32 p -> is_int32 l -> bad_pair mem p l ->
  slice_ok mem p (int32 (p + l)) = false.
Proof.
  intros Hp Hl Hbad. apply not_true_is_false. intros Hok.
  apply slice_ok_pair in Hok; [|done..].
  by apply (bad_pair_not_in_bounds mem p l).
Qed.

(** ** Little-endian encoding *)

Lemma Z_of_byte_of_Z v : Z_of_byte (byte_of_Z v) = v mod 2 ^ 8.
Proof.
  unfold Z_of_byte, byte_of_Z.
  change 255 with (Z.ones 8). rewrite Z.land_ones by lia.
  pose proof (Z.mod_pos_bound v (2 ^ 8) ltac:(lia)) as Hb.
  pose proof (Byte.to_of_N_option_map (Z.to_N (v mod 2 ^ 8))) as Ho.
  destruct (Byte.of_N (Z.to_N (v mod 2 ^ 8))) as [b|]; simpl in *.
  - destruct (N.leb_spec (Z.to_N (v mod 2 ^ 8)) 255); [|done].
    injection Ho as ->. lia.
  - destruct (N.leb_spec (Z.to_N (v mod 2 ^ 8)) 255); [done|lia].
Qed.

Lemma lor_shiftl_8 a x :
  0 <= a < 2 ^ 8 -> 0 <= x -> Z.lor a (Z.shiftl x 8) = a + 2 ^ 8 * x.
Proof.
  intros Ha Hx.
  assert (Hland : Z.land a (Z.shiftl x 8) = 0).
  { apply Z.bits_inj'. intros n Hn.
    rewrite Z.land_spec, Z.bits_0.
    destruct (Z_lt_dec n 8).
    - rewrite (Z.shiftl_spec_low x 8 n) by lia. apply andb_false_r.
    - rewrite <- (Z.mod_small a (2 ^ 8)) by lia.
      by rewrite Z.mod_pow2_bits_high by lia. }
  rewrite <- Z.lxor_lor by exact Hland.
  rewrite <- Z.add_nocarry_lxor by exact Hland.
  rewrite Z.shiftl_mul_pow2 by lia. lia.
Qed.

Lemma le_value_bytes n v :
  le_value (le_bytes n v) = v mod 2 ^ (8 * Z.of_nat n).
Proof.
  revert v. induction n as [|n IH]; intros v.
  - simpl. by rewrite Z.mod_1_r.
  - cbn [le_bytes le_value]. rewrite IH, Z_of_byte_of_Z, Z.shiftr_div_pow2 by lia.
    rewrite lor_shiftl_8.
    + replace (8 * Z.of_nat (S n)) with (8 + 8 * Z.of_nat n) by lia.
      rewrite Z.pow_add_r by lia. by rewrite Z.rem_mul_r by lia.
    + apply Z.mod_pos_bound. lia.
    + apply Z.mod_pos_bound. lia.
Qed.

Lemma length_le_bytes n v : length (le_bytes n v) = n.
Proof. revert v. induction n; intros; simpl; auto. Qed.

(** ** Guest memory after a copy *)

Lemma take_drop_inserts_same (mem src : list byte) (i : nat) :
  (i + length src <= length mem)%nat ->
  take (length src) (drop i (list_inserts i src mem)) = src.
Proof.
  intros Hlen. apply list_eq. intros j.
  destruct (decide (j < length src)%nat) as [Hj|Hj].
  - rewrite lookup_take_lt, lookup_drop, list_lookup_inserts by lia.
    f_equal. lia.
  - rewrite lookup_take_ge by lia. symmetry. apply lookup_ge_None_2. lia.
Qed.

Lemma take_drop_inserts_disjoint (mem src : list byte) (i j n : nat) :
  (i + length src <= j \/ j + n <= i)%nat ->
  take n (drop j (list_inserts i src mem)) = take n (drop j mem).
Proof.
  intros Hd. apply list_eq. intros k.
  destruct (decide (k < n)%nat) as [Hk|Hk].
  - rewrite !lookup_take_lt, !lookup_drop by lia.
    destruct Hd; [apply list_lookup_inserts_ge|apply list_lookup_inserts_lt]; lia.
  - by rewrite !lookup_take_ge by lia.
Qed.

Lemma bytes_at_same mem src p n :
  n = Z.of_nat (length src) ->
  0 <= p -> p + n <= Z.of_nat (length mem) ->
  bytes_at (list_inserts (Z.to_nat p) src mem) p n = src.
Proof.
  intros -> Hp Hl. unfold bytes_at. rewrite Nat2Z.id.
  apply take_drop_inserts_same. lia.
Qed.

Lemma bytes_at_disjoint mem src p q n :
  0 <= p -> 0 <= q -> 0 <= n ->
  disjoint p (Z.of_nat (length src)) q n ->
  bytes_at (list_inserts (Z.to_nat p) src mem) q n = bytes_at mem q n.
Proof.
  intros Hp Hq Hn Hd. unfold bytes_at.
  apply take_drop_inserts_disjoint. unfold disjoint in Hd. lia.
Qed.

(** ** The host functions *)

Section Properties.

Context {jvalue : Type}.
Variable json_Marshal : list byte -> list byte + string.
Variable json_Unmarshal : list byte -> jvalue + string.

Implicit Types (h : host jvalue) (a : Value).

(** Case analysis on everything a host function branches on. *)
Ltac host_cases :=
  unfold bind, GetMemory, PutUint32, PutUint64, slice, copy_to, malloc, emit,
    ok, fail, fail_with, ret;
  repeat
    (cbn [fst snd module events instance with_Data with_instance mallocFunc
          Data GetMemory_err];
     match goal with
     | |- context [GetMemory_err ?i] => destruct (GetMemory_err i) eqn:?
     | |- context [slice_ok ?m ?a ?b] => destruct (slice_ok m a b) eqn:?
     | |- context [decide ?P] => destruct (decide P)
     | |- context [json_Unmarshal ?v] => destruct (json_Unmarshal v) eqn:?
     | |- context [json_Marshal ?v] => destruct (json_Marshal v) eqn:?
     | |- context [mallocFunc ?m ?n ?i] =>
         destruct (mallocFunc m n i) as [[?|?] ?] eqn:?
     end);
  cbn [fst snd module events instance with_Data with_instance mallocFunc
       Data GetMemory_err];
  try done.

Lemma slice_panics h lo hi :
  slice_ok (Data (instance (module h))) lo hi = false ->
  out_of_bounds (slice lo hi h) h.
Proof. intros Hno. exists lo, hi. unfold slice. by rewrite Hno. Qed.

Lemma copy_to_panics h lo hi src :
  slice_ok (Data (instance (module h))) lo hi = false ->
  out_of_bounds (copy_to lo hi src h) h.
Proof. intros Hno. exists lo, hi. unfold copy_to. by rewrite Hno. Qed.

Lemma slice_done h p l :
  is_int32 p -> is_int32 l -> in_bounds (Data (instance (module h))) p l ->
  slice p (int32 (p + l)) h = (Done (bytes_at (Data (instance (module h))) p l), h).
Proof.
  intros Hp Hl Hin. unfold slice, bytes_at.
  rewrite (proj2 (slice_ok_pair _ p l Hp Hl) Hin).
  destruct Hin as (? & ? & ? & ?).
  rewrite int32_small by (unfold is_int32 in *; lia).
  do 3 f_equal. lia.
Qed.

Lemma slice_bad_pair h p l :
  is_int32 p -> is_int32 l -> bad_pair (Data (instance (module h))) p l ->
  slice p (int32 (p + l)) h =
    (Panicked (SliceBoundsOutOfRange p (int32 (p + l))
                 (length (Data (instance (module h))))), h).
Proof.
  intros Hp Hl Hbad. unfold slice. by rewrite bad_pair_slice.
Qed.

Lemma copy_to_bad_pair h p l src :
  is_int32 p -> is_int32 l -> bad_pair (Data (instance (module h))) p l ->
  copy_to p (int32 (p + l)) src h =
    (Panicked (SliceBoundsOutOfRange p (int32 (p + l))
                 (length (Data (instance (module h))))), h).
Proof.
  intros Hp Hl Hbad. unfold copy_to. by rewrite bad_pair_slice.
Qed.

Lemma in_bounds_length (m1 m2 : list byte) p l :
  length m1 = length m2 -> in_bounds m1 p l -> in_bounds m2 p l.
Proof. unfold in_bounds. intros ->. done. Qed.

Lemma in_bounds_int32 (mem : list byte) p l :
  in_bounds mem p l -> is_int32 p /\ is_int32 l.
Proof. unfold in_bounds, is_int32. lia. Qed.

(** A copy of exactly the bytes the destination has room for. *)
Lemma copy_to_done h p src :
  in_bounds (Data (instance (module h))) p (Z.of_nat (length src)) ->
  copy_to p (int32 (p + Z.of_nat (length src))) src h =
    (Done tt,
     Host (with_Data (module h)
             (list_inserts (Z.to_nat p) src (Data (instance (module h)))))
          (events h)).
Proof.
  intros Hin. destruct (in_bounds_int32 _ _ _ Hin) as [Hp Hl].
  unfold copy_to. rewrite (proj2 (slice_ok_pair _ p _ Hp Hl) Hin).
  destruct Hin as (? & ? & ? & ?).
  rewrite int32_small by (unfold is_int32 in *; lia).
  replace (p + Z.of_nat (length src) - p) with (Z.of_nat (length src)) by lia.
  by rewrite Nat2Z.id, firstn_all.
Qed.

Lemma PutUint32_done h p v :
  in_bounds (Data (instance (module h))) p 4 ->
  PutUint32 p (int32 (p + 4)) v h =
    (Done tt,
     Host (with_Data (module h)
             (list_inserts (Z.to_nat p) (le_bytes 4 v)
                (Data (instance (module h)))))
          (events h)).
Proof.
  intros Hin. pose proof (copy_to_done h p (le_bytes 4 v)) as Hc.
  rewrite length_le_bytes in Hc. exact (Hc Hin).
Qed.

Lemma PutUint64_done h p v :
  in_bounds (Data (instance (module h))) p 8 ->
  PutUint64 p (int32 (p + 8)) v h =
    (Done tt,
     Host (with_Data (module h)
             (list_inserts (Z.to_nat p) (le_bytes 8 v)
                (Data (instance (module h)))))
          (events h)).
Proof.
  intros Hin. pose proof (copy_to_done h p (le_bytes 8 v)) as Hc.
  rewrite length_le_bytes in Hc. exact (Hc Hin).
Qed.

Lemma getField_bad_pair h a0 a1 a2 a3 :
  GetMemory_err (instance (module h)) = None ->
  bad_pair (Data (instance (module h))) (I32 a0) (I32 a1) ->
  out_of_bounds (getField json_Marshal [a0; a1; a2; a3] h) h.
Proof.
  intros Hmem Hbad. unfold getField, bind, GetMemory. rewrite Hmem.
  rewrite slice_bad_pair by (done || apply I32_range). by eexists _, _.
Qed.

Lemma putField_bad_pair h a0 a1 a2 a3 :
  GetMemory_err (instance (module h)) = None ->
  bad_pair (Data (instance (module h))) (I32 a0) (I32 a1) \/
  bad_pair (Data (instance (module h))) (I32 a2) (I32 a3) ->
  out_of_bounds (putField json_Unmarshal [a0; a1; a2; a3] h) h.
Proof.
  intros Hmem Hbad. unfold putField, bind, GetMemory. rewrite Hmem.
  set (mem := Data (instance (module h))) in *.
  destruct (slice_ok mem (I32 a0) (int32 (I32 a0 + I32 a1))) eqn:Hkey.
  - destruct Hbad as [Hbad|Hbad].
    { by rewrite bad_pair_slice in Hkey by (done || apply I32_range). }
    unfold slice at 1. fold mem. rewrite Hkey.
    rewrite slice_bad_pair by (done || apply I32_range). by eexists _, _.
  - unfold slice at 1. fold mem. rewrite Hkey. by eexists _, _.
Qed.

Lemma log_bad_pair h a0 a1 a2 :
  GetMemory_err (instance (module h)) = None ->
  bad_pair (Data (instance (module h))) (I32 a1) (I32 a2) ->
  out_of_bounds (log [a0; a1; a2] h) h.
Proof.
  intros Hmem Hbad. unfold log, bind, GetMemory. rewrite Hmem.
  rewrite slice_bad_pair by (done || apply I32_range). by eexists _, _.
Qed.

Lemma getCurrentTime_bad_ptr h a0 now :
  GetMemory_err (instance (module h)) = None ->
  bad_pair (Data (instance (module h))) (I32 a0) 8 ->
  out_of_bounds (getCurrentTime now [a0] h) h.
Proof.
  intros Hmem Hbad. unfold getCurrentTime, bind, GetMemory, PutUint64.
  rewrite Hmem.
  rewrite copy_to_bad_pair by (done || apply I32_range || (unfold is_int32; lia)).
  by eexists _, _.
Qed.

(** What put-field does once its two buffers are in range. *)
Lemma putField_run h a0 a1 a2 a3 :
  GetMemory_err (instance (module h)) = None ->
  let mem := Data (instance (module h)) in
  in_bounds mem (I32 a0) (I32 a1) ->
  in_bounds mem (I32 a2) (I32 a3) ->
  let key := bytes_at mem (I32 a0) (I32 a1) in
  let value := bytes_at mem (I32 a2) (I32 a3) in
  putField json_Unmarshal [a0; a1; a2; a3] h =
    match json_Unmarshal value with
    | inr e =>
        (Done (Result (Some [NewI32 (Status_int32 StatusInvalidArgument)])
                 (Some (ErrDecode e))),
         Host (module h) (events h ++ [Log_put_field_raw key value]))
    | inl v =>
        (Done (Result (Some [NewI32 (Status_int32 StatusOK)]) None),
         Host (module h)
           (events h ++ [Log_put_field_raw key value; Log_put_field key v]))
    end.
Proof.
  intros Hmem mem Hkey Hval key value.
  unfold putField, bind, GetMemory. rewrite Hmem.
  rewrite slice_done by (done || apply I32_range).
  rewrite slice_done by (done || apply I32_range). fold mem key value.
  unfold emit. cbn [module events].
  destruct (json_Unmarshal value) as [v|e]; [|done].
  cbn [module events]. unfold ok, ret. by rewrite <- app_assoc.
Qed.

(** C1. A (pointer, length) pair whose sum overflows 32 bits or passes the
    end of the instance's memory never reaches the memory: the slice
    expression that every read ([slice]) and every write ([copy_to]) starts
    with stops on its bounds check, and the capability function given such a
    pair stops there too, before it has read, written, logged or allocated
    anything. *)
Theorem bad_pair_is_out_of_bounds h a0 a1 a2 a3 now :
  GetMemory_err (instance (module h)) = None ->
  let mem := Data (instance (module h)) in
  (forall p l src, is_int32 p -> is_int32 l -> bad_pair mem p l ->
     out_of_bounds (slice p (int32 (p + l)) h) h /\
     out_of_bounds (copy_to p (int32 (p + l)) src h) h) /\
  (bad_pair mem (I32 a0) (I32 a1) ->
     out_of_bounds (getField json_Marshal [a0; a1; a2; a3] h) h) /\
  (bad_pair mem (I32 a0) (I32 a1) \/ bad_pair mem (I32 a2) (I32 a3) ->
     out_of_bounds (putField json_Unmarshal [a0; a1; a2; a3] h) h) /\
  (bad_pair mem (I32 a1) (I32 a2) ->
     out_of_bounds (log [a0; a1; a2] h) h) /\
  (bad_pair mem (I32 a0) 8 ->
     out_of_bounds (getCurrentTime now [a0] h) h).
Proof.
  intros Hmem mem. repeat split.
  - apply slice_panics. by apply bad_pair_slice.
  - apply copy_to_panics. by apply bad_pair_slice.
  - by apply getField_bad_pair.
  - by apply putField_bad_pair.
  - by apply log_bad_pair.
  - by apply getCurrentTime_bad_ptr.
Qed.

(** C3. A call of get-field whose name is not the one the host knows
    returns the status OK, never NotFound, and changes nothing in the module:
    the memory, and so the two out-parameter slots, are as the guest left
    them. The call only logs the name. *)
Theorem getField_miss h a0 a1 a2 a3 :
  GetMemory_err (instance (module h)) = None ->
  let mem := Data (instance (module h)) in
  in_bounds mem (I32 a0) (I32 a1) ->
  bytes_at mem (I32 a0) (I32 a1) <> message ->
  let r := getField json_Marshal [a0; a1; a2; a3] h in
  fst r = Done (Result (Some [NewI32 (Status_int32 StatusOK)]) None) /\
  status_of (fst r) <> Some (Status_int32 StatusNotFound) /\
  module (snd r) = module h /\
  events (snd r) =
    events h ++ [Log_get_field (bytes_at mem (I32 a0) (I32 a1))].
Proof.
  intros Hmem mem Hin Hname r. subst r.
  unfold getField, bind, GetMemory. rewrite Hmem.
  rewrite slice_done by (done || apply I32_range). fold mem.
  unfold emit. cbn [module events].
  destruct (decide (bytes_at mem (I32 a0) (I32 a1) = message)); [done|].
  repeat split. cbn. unfold I32, int32. cbn. discriminate.
Qed.

(** C4. A call of put-field whose two buffers are in range returns the
    status InvalidArgument when the value does not decode, and the status OK
    when it does; either way the module is left as it was. *)
Theorem putField_status h a0 a1 a2 a3 :
  GetMemory_err (instance (module h)) = None ->
  let mem := Data (instance (module h)) in
  in_bounds mem (I32 a0) (I32 a1) ->
  in_bounds mem (I32 a2) (I32 a3) ->
  let value := bytes_at mem (I32 a2) (I32 a3) in
  let r := putField json_Unmarshal [a0; a1; a2; a3] h in
  (forall e, json_Unmarshal value = inr e ->
     fst r = Done (Result (Some [NewI32 (Status_int32 StatusInvalidArgument)])
                     (Some (ErrDecode e)))) /\
  (forall v, json_Unmarshal value = inl v ->
     fst r = Done (Result (Some [NewI32 (Status_int32 StatusOK)]) None)) /\
  module (snd r) = module h.
Proof.
  intros Hmem mem Hkey Hval value r. subst r.
  rewrite putField_run by done. fold mem value.
  destruct (json_Unmarshal value) as [v|e]; repeat split;
    intros ? [= <-]; done.
Qed.

(** C10. A call of log whose message is in range returns the status OK
    whatever its level: any I32 is taken, it is only written to the log line,
    and two calls that differ in the level alone return the same values and
    leave the same module. *)
Theorem log_any_level h a0 a0' a1 a2 :
  GetMemory_err (instance (module h)) = None ->
  let mem := Data (instance (module h)) in
  in_bounds mem (I32 a1) (I32 a2) ->
  log [a0; a1; a2] h =
    (Done (Result (Some [NewI32 (Status_int32 StatusOK)]) None),
     Host (module h)
       (events h ++ [Log_guest (I32 a0) (bytes_at mem (I32 a1) (I32 a2))])) /\
  fst (log [a0; a1; a2] h) = fst (log [a0'; a1; a2] h) /\
  module (snd (log [a0; a1; a2] h)) = module (snd (log [a0'; a1; a2] h)) /\
  ((forall l : LogLevel, I32 a0 <> LogLevel_int32 l) ->
   status_of (fst (log [a0; a1; a2] h)) = Some (Status_int32 StatusOK)).
Proof.
  intros Hmem mem Hin.
  assert (Hlog : forall a, log [a; a1; a2] h =
    (Done (Result (Some [NewI32 (Status_int32 StatusOK)]) None),
     Host (module h)
       (events h ++ [Log_guest (I32 a) (bytes_at mem (I32 a1) (I32 a2))]))).
  { intros a. unfold log, bind, GetMemory. rewrite Hmem.
    by rewrite slice_done by (done || apply I32_range). }
  by rewrite !Hlog.
Qed.

(** C2. A call of get-field for the name the host knows, on an instance
    whose allocator answers and whose ranges are valid: the host encodes the
    value, asks the allocator for exactly the length of the encoding, copies
    the encoding to the pointer it got, writes that pointer and that length,
    little-endian, to the two out-parameter slots, and returns the status OK.
    When the buffer and the two slots do not overlap, the memory the guest
    sees afterwards holds the encoding at the pointer stored in the first
    slot, for the length stored in the second. *)
Theorem getField_hit h a0 a1 a2 a3 value ptr i' :
  GetMemory_err (instance (module h)) = None ->
  let mem := Data (instance (module h)) in
  in_bounds mem (I32 a0) (I32 a1) ->
  bytes_at mem (I32 a0) (I32 a1) = message ->
  json_Marshal raw = inl value ->
  let size := Z.of_nat (length value) in
  mallocFunc (module h) size (instance (module h)) = (inl ptr, i') ->
  in_bounds (Data i') ptr size ->
  in_bounds (Data i') (I32 a2) 4 ->
  in_bounds (Data i') (I32 a3) 4 ->
  let r := getField json_Marshal [a0; a1; a2; a3] h in
  fst r = Done (Result (Some [NewI32 (Status_int32 StatusOK)]) None) /\
  events (snd r) = events h ++ [Log_get_field message; Call_malloc size] /\
  memory_after r =
    list_inserts (Z.to_nat (I32 a3)) (le_bytes 4 (uint32 size))
      (list_inserts (Z.to_nat (I32 a2)) (le_bytes 4 (uint32 ptr))
         (list_inserts (Z.to_nat ptr) value (Data i'))) /\
  (disjoint ptr size (I32 a2) 4 ->
   disjoint ptr size (I32 a3) 4 ->
   disjoint (I32 a2) 4 (I32 a3) 4 ->
   bytes_at (memory_after r) ptr size = value /\
   le_value (bytes_at (memory_after r) (I32 a2) 4) = ptr /\
   le_value (bytes_at (memory_after r) (I32 a3) 4) = size).
Proof.
  intros Hmem mem Hin Hname Henc size Hmalloc Hbuf Hs1 Hs2 r.
  destruct (in_bounds_int32 _ _ _ Hbuf) as [Hptr Hsize].
  assert (Hr : r =
    (Done (Result (Some [NewI32 (Status_int32 StatusOK)]) None),
     Host (with_Data (with_instance (module h) i')
             (list_inserts (Z.to_nat (I32 a3)) (le_bytes 4 (uint32 size))
                (list_inserts (Z.to_nat (I32 a2)) (le_bytes 4 (uint32 ptr))
                   (list_inserts (Z.to_nat ptr) value (Data i')))))
          (events h ++ [Log_get_field message; Call_malloc size]))).
  { subst r. unfold getField, bind, GetMemory. rewrite Hmem.
    rewrite slice_done by (done || apply I32_range). fold mem.
    rewrite Hname. unfold emit. cbn [module events].
    destruct (decide (message = message)); [|done].
    rewrite Henc. fold size. rewrite (int32_small size) by done.
    unfold malloc. cbn [module events]. rewrite Hmalloc.
    rewrite (int32_small ptr) by done.
    unfold size at 1. rewrite copy_to_done by done.
    rewrite PutUint32_done;
      cbn [module events instance with_Data with_instance Data].
    2: { eapply in_bounds_length; [|exact Hs1]. by rewrite length_inserts. }
    rewrite PutUint32_done;
      cbn [module events instance with_Data with_instance Data].
    2: { eapply in_bounds_length; [|exact Hs2]. by rewrite !length_inserts. }
    by rewrite <- app_assoc. }
  rewrite Hr. unfold memory_after. cbn [fst snd module events instance with_Data
    with_instance Data].
  split; [done|]. split; [done|]. split; [done|].
  intros D1 D2 D3.
  destruct Hbuf as (? & ? & ? & ?), Hs1 as (? & _ & ? & ?), Hs2 as (? & _ & ? & ?).
  assert (Hu : forall v, 0 <= v < 2 ^ 31 -> uint32 v mod 2 ^ 32 = v).
  { intros v Hv. unfold uint32. rewrite Z.mod_mod by lia.
    apply Z.mod_small. lia. }
  unfold disjoint in *. repeat split.
  - rewrite !bytes_at_disjoint by
      (rewrite ?length_le_bytes; unfold disjoint; lia).
    apply bytes_at_same; lia.
  - rewrite bytes_at_disjoint by
      (rewrite ?length_le_bytes; unfold disjoint; lia).
    rewrite bytes_at_same by (rewrite ?length_inserts, ?length_le_bytes; lia).
    rewrite le_value_bytes. apply Hu. lia.
  - rewrite bytes_at_same by (rewrite ?length_inserts, ?length_le_bytes; lia).
    rewrite le_value_bytes. apply Hu. lia.
Qed.

(** C7, as the code has it. When the guest's allocator fails on a present
    field, get-field does not panic and reports no status: it returns no
    values and hands the allocator's error to the engine. When the name's
    range is out of bounds, or the allocator answers with a buffer that is not
    inside the memory, get-field stops on the bounds panic of the slice
    expression. *)
Theorem getField_failures h a0 a1 a2 a3 value :
  GetMemory_err (instance (module h)) = None ->
  json_Marshal raw = inl value ->
  let mem := Data (instance (module h)) in
  let size := Z.of_nat (length value) in
  let r := getField json_Marshal [a0; a1; a2; a3] h in
  (bad_pair mem (I32 a0) (I32 a1) -> out_of_bounds r h) /\
  (in_bounds mem (I32 a0) (I32 a1) ->
   bytes_at mem (I32 a0) (I32 a1) = message ->
   forall res i',
     mallocFunc (module h) (int32 size) (instance (module h)) = (res, i') ->
     match res with
     | inr e =>
         r = (Done (Result None (Some (ErrGuest e))),
              Host (with_instance (module h) i')
                (events h ++ [Log_get_field message; Call_malloc (int32 size)]))
         /\ status_of (fst r) = None
     | inl ptr =>
         slice_ok (Data i') (int32 ptr) (int32 (int32 ptr + int32 size)) = false ->
         r = (Panicked (SliceBoundsOutOfRange (int32 ptr)
                          (int32 (int32 ptr + int32 size)) (length (Data i'))),
              Host (with_instance (module h) i')
                (events h ++ [Log_get_field message; Call_malloc (int32 size)]))
     end).
Proof.
  intros Hmem Henc mem size r. split.
  - intros Hbad. subst r. unfold getField, bind, GetMemory. rewrite Hmem.
    rewrite slice_bad_pair by (done || apply I32_range). by eexists _, _.
  - intros Hin Hname res i' Hmalloc. subst r.
    unfold getField, bind, GetMemory. rewrite Hmem.
    rewrite slice_done by (done || apply I32_range). fold mem.
    rewrite Hname. unfold emit. cbn [module events].
    destruct (decide (message = message)); [|done].
    rewrite Henc. fold size.
    unfold malloc. cbn [module events]. rewrite Hmalloc.
    destruct res as [ptr|msg].
    + intros Hno. unfold copy_to.
      cbn [module events instance with_instance Data].
      rewrite Hno. by rewrite <- app_assoc.
    + unfold fail, ret. by rewrite <- app_assoc.
Qed.

(** C5, as the code has it. A call with the wrong number of arguments
    returns no status: no values and an error, the host untouched. A lookup
    of the memory export that fails returns the status InternalFailure with
    an error from put-field, and no status with an error from the other
    three. A value that does not decode makes put-field return the status
    InvalidArgument with an error. None of these panics. A pair out of bounds
    does: the call stops on the runtime's bounds check. *)
Theorem failure_reports h args now :
  (length args <> 4%nat ->
     getField json_Marshal args h =
       (Done (Result None (Some (ErrArgCount "get_field" 4 (length args)))), h) /\
     putField json_Unmarshal args h =
       (Done (Result None (Some (ErrArgCount "put_field" 4 (length args)))), h)) /\
  (length args <> 3%nat ->
     log args h =
       (Done (Result None (Some (ErrArgCount "log" 3 (length args)))), h)) /\
  (length args <> 1%nat ->
     getCurrentTime now args h =
       (Done (Result None
                (Some (ErrArgCount "elastic_get_current_time_nanoseconds" 1
                         (length args)))), h)) /\
  (forall e, GetMemory_err (instance (module h)) = Some e ->
     (length args = 4%nat ->
        putField json_Unmarshal args h =
          (Done (Result (Some [NewI32 (Status_int32 StatusInternalFailure)])
                   (Some (ErrGetMemory e))), h) /\
        getField json_Marshal args h =
          (Done (Result None (Some (ErrGetMemory e))), h)) /\
     (length args = 3%nat ->
        log args h = (Done (Result None (Some (ErrGetMemory e))), h)) /\
     (length args = 1%nat ->
        getCurrentTime now args h =
          (Done (Result None (Some (ErrGetMemory e))), h))) /\
  (forall a0 a1 a2 a3, args = [a0; a1; a2; a3] ->
     GetMemory_err (instance (module h)) = None ->
     let mem := Data (instance (module h)) in
     (in_bounds mem (I32 a0) (I32 a1) -> in_bounds mem (I32 a2) (I32 a3) ->
      forall e, json_Unmarshal (bytes_at mem (I32 a2) (I32 a3)) = inr e ->
        fst (putField json_Unmarshal args h) =
          Done (Result (Some [NewI32 (Status_int32 StatusInvalidArgument)])
                  (Some (ErrDecode e)))) /\
     (bad_pair mem (I32 a0) (I32 a1) \/ bad_pair mem (I32 a2) (I32 a3) ->
        out_of_bounds (putField json_Unmarshal args h) h /\
        status_of (fst (putField json_Unmarshal args h)) = None)).
Proof.
  split; [|split; [|split; [|split]]].
  - intros Hn. split; by destruct args as [|? [|? [|? [|? [|? ?]]]]].
  - intros Hn. by destruct args as [|? [|? [|? [|? ?]]]].
  - intros Hn. by destruct args as [|? [|? ?]].
  - intros e He. split; [|split].
    + intros Hl. destruct args as [|? [|? [|? [|? [|? ?]]]]]; try done.
      unfold putField, getField, bind, GetMemory. by rewrite He.
    + intros Hl. destruct args as [|? [|? [|? [|? ?]]]]; try done.
      unfold log, bind, GetMemory. by rewrite He.
    + intros Hl. destruct args as [|? [|? ?]]; try done.
      unfold getCurrentTime, bind, GetMemory. by rewrite He.
  - intros a0 a1 a2 a3 -> Hmem mem. split.
    + intros Hk Hv e He. rewrite putField_run by done. fold mem.
      by rewrite He.
    + intros Hbad.
      destruct (putField_bad_pair h a0 a1 a2 a3 Hmem Hbad) as (lo & hi & Heq).
      split; [by exists lo, hi|by rewrite Heq].
Qed.

(** What get-current-time does once its eight bytes are in range. *)
Lemma getCurrentTime_run h a0 now :
  GetMemory_err (instance (module h)) = None ->
  in_bounds (Data (instance (module h))) (I32 a0) 8 ->
  getCurrentTime now [a0] h =
    (Done (Result (Some [NewI32 (Status_int32 StatusOK)]) None),
     Host (with_Data (module h)
             (list_inserts (Z.to_nat (I32 a0)) (le_bytes 8 (uint64 now))
                (Data (instance (module h)))))
          (events h)).
Proof.
  intros Hmem Hin. unfold getCurrentTime, bind, GetMemory. rewrite Hmem.
  by rewrite PutUint64_done.
Qed.

Lemma uint64_range now : 0 <= uint64 now < 2 ^ 64.
Proof. unfold uint64. apply Z.mod_pos_bound. lia. Qed.

Lemma clock_calls_readings calls : forall h,
  GetMemory_err (instance (module h)) = None ->
  Forall (fun c => in_bounds (Data (instance (module h))) (I32 (snd c)) 8) calls ->
  clock_calls calls h = map (fun c => uint64 (fst c)) calls.
Proof.
  induction calls as [|[now a] calls IH]; intros h Hmem Hall; [done|].
  apply Forall_cons in Hall as [Hin Hall]. cbn [snd] in Hin.
  cbn [clock_calls map fst]. rewrite getCurrentTime_run by done.
  cbn [module instance with_Data with_instance Data].
  destruct Hin as (? & _ & ? & ?).
  rewrite bytes_at_same by (rewrite ?length_le_bytes; lia).
  rewrite le_value_bytes. f_equal.
  - apply Z.mod_small. apply uint64_range.
  - apply IH; [done|]. cbn [module instance with_Data with_instance Data].
    eapply Forall_impl; [exact Hall|]. intros c Hc.
    eapply in_bounds_length; [|exact Hc]. by rewrite length_inserts.
Qed.

Lemma getCurrentTime_not_in_bounds h a0 now :
  GetMemory_err (instance (module h)) = None ->
  ~ in_bounds (Data (instance (module h))) (I32 a0) 8 ->
  out_of_bounds (getCurrentTime now [a0] h) h.
Proof.
  intros Hmem Hno. unfold getCurrentTime, bind, GetMemory, PutUint64.
  rewrite Hmem. unfold copy_to.
  destruct (slice_ok (Data (instance (module h))) (I32 a0)
              (int32 (I32 a0 + 8))) eqn:Hok; [|by eexists _, _].
  apply slice_ok_pair in Hok; [done|apply I32_range|].
  unfold is_int32. lia.
Qed.

(** [uint64] of an [int64]: the readings before the epoch land above all
    the others. *)
Lemma uint64_int64 z :
  - 2 ^ 63 <= z < 2 ^ 63 ->
  uint64 z = if 0 <=? z then z else z + 2 ^ 64.
Proof.
  unfold uint64. intros Hz. destruct (Z.leb_spec 0 z).
  - apply Z.mod_small. lia.
  - replace z with (z + 2 ^ 64 + (-1) * 2 ^ 64) at 1 by lia.
    rewrite Z.mod_add by lia. apply Z.mod_small. lia.
Qed.

(** C8, as the code has it. With the export [memory] in place, the calls of
    get-current-time fall in two classes. When the eight bytes at the out
    pointer are [in_bounds], inside the memory and ending below [2 ^ 31],
    the call returns the status OK and writes the clock reading, as an
    unsigned 64-bit number in little-endian order, to exactly those eight
    bytes: the memory keeps its length and every range that does not meet
    them keeps its bytes. In every other case, a range that is a [bad_pair]
    among them, the call reports no status: it stops on the bounds panic
    with the host untouched. Over repeated calls the numbers the guest reads
    back are the successive clock readings converted to [uint64]; of two
    readings that do not decrease, the numbers read back do not decrease
    exactly when the readings are on the same side of the epoch, so always
    for readings since the epoch. *)
Theorem getCurrentTime_writes h a0 now :
  GetMemory_err (instance (module h)) = None ->
  let mem := Data (instance (module h)) in
  let r := getCurrentTime now [a0] h in
  (in_bounds mem (I32 a0) 8 ->
     fst r = Done (Result (Some [NewI32 (Status_int32 StatusOK)]) None) /\
     events (snd r) = events h /\
     length (memory_after r) = length mem /\
     bytes_at (memory_after r) (I32 a0) 8 = le_bytes 8 (uint64 now) /\
     le_value (bytes_at (memory_after r) (I32 a0) 8) = uint64 now /\
     (forall q n, 0 <= q -> 0 <= n -> disjoint (I32 a0) 8 q n ->
        bytes_at (memory_after r) q n = bytes_at mem q n)) /\
  (~ in_bounds mem (I32 a0) 8 ->
     out_of_bounds r h /\ status_of (fst r) = None) /\
  (bad_pair mem (I32 a0) 8 ->
     ~ in_bounds mem (I32 a0) 8 /\
     out_of_bounds r h /\ status_of (fst r) = None) /\
  (forall calls,
     Forall (fun c => in_bounds mem (I32 (snd c)) 8) calls ->
     clock_calls calls h = map (fun c => uint64 (fst c)) calls /\
     (forall i j x y, (i <= j)%nat ->
        calls !! i = Some x -> calls !! j = Some y ->
        - 2 ^ 63 <= fst x -> fst x <= fst y -> fst y < 2 ^ 63 ->
        exists u v, clock_calls calls h !! i = Some u /\
                    clock_calls calls h !! j = Some v /\
                    (u <= v <-> (0 <= fst x \/ fst y < 0)) /\
                    (0 <= fst x -> u = fst x /\ v = fst y))).
Proof.
  intros Hmem mem r.
  assert (Hout : ~ in_bounds mem (I32 a0) 8 ->
                 out_of_bounds r h /\ status_of (fst r) = None).
  { intros Hno.
    destruct (getCurrentTime_not_in_bounds h a0 now Hmem Hno)
      as (lo & hi & Heq).
    split; [by exists lo, hi|]. subst r. by rewrite Heq. }
  split; [|split; [|split]].
  - intros Hin. subst r. rewrite getCurrentTime_run by done.
    unfold memory_after. cbn [fst snd module events instance with_Data
      with_instance Data]. fold mem.
    pose proof Hin as (? & _ & ? & ?).
    assert (Hsame : bytes_at
      (list_inserts (Z.to_nat (I32 a0)) (le_bytes 8 (uint64 now)) mem)
      (I32 a0) 8 = le_bytes 8 (uint64 now)).
    { apply bytes_at_same; rewrite ?length_le_bytes; lia. }
    repeat split; try done.
    + by rewrite length_inserts.
    + rewrite Hsame, le_value_bytes. apply Z.mod_small, uint64_range.
    + intros q n Hq Hn Hd. by apply bytes_at_disjoint.
  - exact Hout.
  - intros Hbad.
    assert (Hno : ~ in_bounds mem (I32 a0) 8).
    { apply bad_pair_not_in_bounds; [apply I32_range| |done].
      unfold is_int32. lia. }
    split; [done|]. by apply Hout.
  - intros calls Hall.
    rewrite (clock_calls_readings calls h Hmem Hall). split; [done|].
    intros i j x y Hij Hx Hy Hlo Hle Hhi.
    exists (uint64 (fst x)), (uint64 (fst y)).
    rewrite !list_lookup_fmap, Hx, Hy.
    split; [done|]. split; [done|].
    rewrite !uint64_int64 by lia.
    destruct (Z.leb_spec 0 (fst x)), (Z.leb_spec 0 (fst y)); lia.
Qed.

Lemma putField_module h args :
  module (snd (putField json_Unmarshal args h)) = module h.
Proof.
  destruct args as [|? [|? [|? [|? [|? ?]]]]]; try done.
  unfold putField. host_cases.
Qed.

Lemma log_module h args : module (snd (log args h)) = module h.
Proof.
  destruct args as [|? [|? [|? [|? ?]]]]; try done.
  unfold log. host_cases.
Qed.

Lemma getField_mallocFunc h args :
  mallocFunc (module (snd (getField json_Marshal args h))) =
  mallocFunc (module h).
Proof.
  destruct args as [|? [|? [|? [|? [|? ?]]]]]; try done.
  unfold getField. host_cases.
Qed.

Lemma getCurrentTime_mallocFunc h args now :
  mallocFunc (module (snd (getCurrentTime now args h))) =
  mallocFunc (module h).
Proof.
  destruct args as [|? [|? ?]]; try done.
  unfold getCurrentTime. host_cases.
Qed.

(** get-field reads the module only: the log the host has written so far
    changes neither what it returns nor the module it leaves. *)
Lemma getField_events m (ev1 ev2 : list (event jvalue)) args :
  fst (getField json_Marshal args (Host m ev1)) =
  fst (getField json_Marshal args (Host m ev2)) /\
  module (snd (getField json_Marshal args (Host m ev1))) =
  module (snd (getField json_Marshal args (Host m ev2))).
Proof.
  destruct args as [|? [|? [|? [|? [|? ?]]]]]; try done.
  unfold getField. host_cases.
Qed.

(** C9, as the code has it. A successful put-field decodes the value and
    writes the key and the value to the host's log; it stores nothing. No
    capability function changes the host's own state: put-field and log leave
    the whole module as it was, guest memory included; get-field and
    get-current-time change the instance only, never the functions the
    module holds. What get-field returns, and the memory it leaves, are the
    same after a put-field as before it. *)
Theorem host_state_frame h args args' now :
  module (snd (putField json_Unmarshal args h)) = module h /\
  module (snd (log args h)) = module h /\
  mallocFunc (module (snd (getField json_Marshal args h))) =
    mallocFunc (module h) /\
  mallocFunc (module (snd (getCurrentTime now args h))) =
    mallocFunc (module h) /\
  fst (getField json_Marshal args' (snd (putField json_Unmarshal args h))) =
    fst (getField json_Marshal args' h) /\
  memory_after (getField json_Marshal args' (snd (putField json_Unmarshal args h))) =
    memory_after (getField json_Marshal args' h) /\
  (forall a0 a1 a2 a3 v,
     args = [a0; a1; a2; a3] ->
     GetMemory_err (instance (module h)) = None ->
     let mem := Data (instance (module h)) in
     in_bounds mem (I32 a0) (I32 a1) ->
     in_bounds mem (I32 a2) (I32 a3) ->
     json_Unmarshal (bytes_at mem (I32 a2) (I32 a3)) = inl v ->
     fst (putField json_Unmarshal args h) =
       Done (Result (Some [NewI32 (Status_int32 StatusOK)]) None) /\
     events (snd (putField json_Unmarshal args h)) =
       events h ++
       [Log_put_field_raw (bytes_at mem (I32 a0) (I32 a1))
          (bytes_at mem (I32 a2) (I32 a3));
        Log_put_field (bytes_at mem (I32 a0) (I32 a1)) v]).
Proof.
  assert (Hget : forall h',
    module h' = module h ->
    fst (getField json_Marshal args' h') = fst (getField json_Marshal args' h) /\
    module (snd (getField json_Marshal args' h')) =
      module (snd (getField json_Marshal args' h))).
  { intros [m' ev'] Hm. destruct h as [m ev]. cbn [module] in Hm. subst m'.
    apply getField_events. }
  destruct (Hget _ (putField_module h args)) as [Hfst Hmod].
  split; [apply putField_module|].
  split; [apply log_module|].
  split; [apply getField_mallocFunc|].
  split; [apply getCurrentTime_mallocFunc|].
  split; [exact Hfst|].
  split; [unfold memory_after; by rewrite Hmod|].
  intros a0 a1 a2 a3 v -> Hmem mem Hk Hv Hdec.
  rewrite putField_run by done. fold mem. by rewrite Hdec.
Qed.

End Properties.

(** ** The properties on the sample guest *)

Section OnSample.

Import Sample.

Local Ltac compute_bounds :=
  unfold in_bounds, bad_pair; vm_compute;
  intuition (discriminate || reflexivity).

(** A pair three bytes from the end of the 128-byte memory, in each of the
    four functions. *)
Lemma bad_pair_is_out_of_bounds_witness :
  out_of_bounds (getField Json.Marshal (args [125; 4; 126; 7]) h0) h0 /\
  out_of_bounds (putField Json.Unmarshal (args [125; 4; 126; 7]) h0) h0 /\
  out_of_bounds (log (args [125; 4; 126]) h0) h0 /\
  out_of_bounds (getCurrentTime 0 (args [125]) h0) h0.
Proof.
  destruct (bad_pair_is_out_of_bounds Json.Marshal Json.Unmarshal h0
              (NewI32 125) (NewI32 4) (NewI32 126) (NewI32 7) 0 eq_refl)
    as (_ & Hget & Hput & Hlog & Htime).
  split; [apply Hget; compute_bounds|].
  split; [apply Hput; left; compute_bounds|].
  split; [apply Hlog; compute_bounds|].
  apply Htime; compute_bounds.
Defined.

(** The present field on the sample guest: 46 bytes at 64, and the pair
    (64, 46) in the slots at 16 and 20. *)
Lemma getField_hit_witness :
  let r := getField Json.Marshal (args [0; 7; 16; 20]) h0 in
  fst r = Done (Result (Some [NewI32 0]) None) /\
  events (snd r) = [Log_get_field message; Call_malloc 46] /\
  bytes_at (memory_after r) 64 46 = encoded /\
  le_value (bytes_at (memory_after r) 16 4) = 64 /\
  le_value (bytes_at (memory_after r) 20 4) = 46.
Proof.
  assert (Hhit := getField_hit Json.Marshal h0
            (NewI32 0) (NewI32 7) (NewI32 16) (NewI32 20) encoded 64
            {| GetMemory_err := None; Data := memory0; globals := [110] |}
            eq_refl).
  cbv zeta in Hhit.
  destruct Hhit as (Hret & Hev & _ & Hback).
  - compute_bounds.
  - reflexivity.
  - reflexivity.
  - reflexivity.
  - compute_bounds.
  - compute_bounds.
  - compute_bounds.
  - destruct Hback as (Hbuf & Hptr & Hlen).
    + unfold disjoint. vm_compute. intuition discriminate.
    + unfold disjoint. vm_compute. intuition discriminate.
    + unfold disjoint. vm_compute. intuition discriminate.
    + repeat split; assumption.
Defined.

(** A name that is not the one the host knows. *)
Lemma getField_miss_witness :
  let r := getField Json.Marshal (args [0; 6; 16; 20]) h0 in
  fst r = Done (Result (Some [NewI32 0]) None) /\
  module (snd r) = module h0 /\
  events (snd r) = [Log_get_field (list_byte_of_string "messag")].
Proof.
  destruct (getField_miss Json.Marshal h0
              (NewI32 0) (NewI32 6) (NewI32 16) (NewI32 20) eq_refl)
    as (Hret & _ & Hmod & Hev); [compute_bounds|vm_compute; discriminate|].
  repeat split; assumption.
Defined.

(** The document [[1,2]] decodes; cut after four bytes it does not. *)
Lemma putField_status_witness :
  fst (putField Json.Unmarshal (args [0; 7; 7; 5]) h0) =
    Done (Result (Some [NewI32 0]) None) /\
  fst (putField Json.Unmarshal (args [0; 7; 7; 4]) h0) =
    Done (Result (Some [NewI32 2])
            (Some (ErrDecode "invalid character or unexpected end of JSON input"))) /\
  module (snd (putField Json.Unmarshal (args [0; 7; 7; 4]) h0)) = module h0.
Proof.
  destruct (putField_status Json.Unmarshal h0
              (NewI32 0) (NewI32 7) (NewI32 7) (NewI32 5) eq_refl)
    as (_ & Hok & _); [compute_bounds..|].
  destruct (putField_status Json.Unmarshal h0
              (NewI32 0) (NewI32 7) (NewI32 7) (NewI32 4) eq_refl)
    as (Hbad & _ & Hmod); [compute_bounds..|].
  split; [exact (Hok _ eq_refl)|]. split; [exact (Hbad _ eq_refl)|exact Hmod].
Defined.

(** The level Error, and a level that is no [LogLevel]. *)
Lemma log_any_level_witness :
  log (args [3; 0; 7]) h0 =
    (Done (Result (Some [NewI32 0]) None),
     Host (module h0) [Log_guest 3 message]) /\
  fst (log (args [3; 0; 7]) h0) = fst (log (args [-77; 0; 7]) h0) /\
  status_of (fst (log (jvalue := Json.json) (args [-77; 0; 7]) h0)) = Some 0.
Proof.
  destruct (log_any_level h0 (NewI32 3) (NewI32 (-77)) (NewI32 0) (NewI32 7)
              eq_refl)
    as (Hlog & Hsame & _); [compute_bounds|].
  destruct (log_any_level h0 (NewI32 (-77)) (NewI32 3) (NewI32 0) (NewI32 7)
              eq_refl)
    as (_ & _ & _ & Hout); [compute_bounds|].
  split; [exact Hlog|]. split; [exact Hsame|].
  apply Hout. intros []; discriminate.
Defined.

(** Against C5 as stated: a call of get-field with three arguments reports
    no status at all, and a call of log with a message that passes the end
    of the memory stops the host function on a panic. *)
Lemma failure_not_in_band :
  getField Json.Marshal (args [0; 7; 16]) h0 =
    (Done (Result None (Some (ErrArgCount "get_field" 4 3))), h0) /\
  status_of (fst (getField Json.Marshal (args [0; 7; 16]) h0)) = None /\
  log (args [1; 0; 600]) h0 =
    (Panicked (SliceBoundsOutOfRange 0 600 128), h0).
Proof. repeat split. Qed.

(** Three arguments to get-field; a value that does not decode; a value
    buffer that passes the end of the memory. *)
Lemma failure_reports_witness :
  getField Json.Marshal (args [0; 7; 16]) h0 =
    (Done (Result None (Some (ErrArgCount "get_field" 4 3))), h0) /\
  fst (putField Json.Unmarshal (args [0; 7; 7; 4]) h0) =
    Done (Result (Some [NewI32 2])
            (Some (ErrDecode "invalid character or unexpected end of JSON input"))) /\
  out_of_bounds (putField Json.Unmarshal (args [0; 7; 7; 400]) h0) h0.
Proof.
  split; [|split].
  - destruct (failure_reports Json.Marshal Json.Unmarshal h0 (args [0; 7; 16]) 0)
      as (Hcount & _).
    apply Hcount. discriminate.
  - destruct (failure_reports Json.Marshal Json.Unmarshal h0
                (args [0; 7; 7; 4]) 0) as (_ & _ & _ & _ & Hput).
    destruct (Hput _ _ _ _ eq_refl eq_refl) as (Hdec & _).
    apply Hdec; [compute_bounds..|reflexivity].
  - destruct (failure_reports Json.Marshal Json.Unmarshal h0
                (args [0; 7; 7; 400]) 0) as (_ & _ & _ & _ & Hput).
    destruct (Hput _ _ _ _ eq_refl eq_refl) as (_ & Hbad).
    apply Hbad. right. compute_bounds.
Defined.

(** Against C7 as stated: on the instance whose heap is exhausted, get-field
    of the present field returns no values and the allocator's error; the
    status InternalFailure is not returned. *)
Lemma malloc_failure_not_InternalFailure :
  fst (getField Json.Marshal (args [0; 7; 16; 20]) h_full) =
    Done (Result None (Some (ErrGuest "unreachable"))) /\
  status_of (fst (getField Json.Marshal (args [0; 7; 16; 20]) h_full)) <>
    Some (Status_int32 StatusInternalFailure).
Proof. split; [reflexivity|discriminate]. Qed.

(** The exhausted heap, and a name that passes the end of the memory. *)
Lemma getField_failures_witness :
  getField Json.Marshal (args [0; 7; 16; 20]) h_full =
    (Done (Result None (Some (ErrGuest "unreachable"))),
     Host (module h_full) [Log_get_field message; Call_malloc 46]) /\
  out_of_bounds (getField Json.Marshal (args [0; 700; 16; 20]) h_full) h_full.
Proof.
  split.
  - destruct (getField_failures Json.Marshal h_full
                (NewI32 0) (NewI32 7) (NewI32 16) (NewI32 20) encoded
                eq_refl eq_refl) as (_ & Hmalloc).
    destruct (Hmalloc ltac:(compute_bounds) eq_refl
                (inr "unreachable"%string) instance_full eq_refl)
      as (Hret & _).
    exact Hret.
  - destruct (getField_failures Json.Marshal h_full
                (NewI32 0) (NewI32 700) (NewI32 16) (NewI32 20) encoded
                eq_refl eq_refl) as (Hbad & _).
    apply Hbad. compute_bounds.
Defined.

(** Against C8 as stated: when the wall clock steps back between two calls,
    the second number the guest reads is smaller than the first; and with
    the out pointer four bytes before the end of the memory the call stops
    on a panic instead of returning the status InternalFailure. *)
Lemma clock_step_back_decreases :
  clock_calls [(1700000000500000000, NewI32 16);
               (1700000000400000000, NewI32 16)] h0 =
    [1700000000500000000; 1700000000400000000] /\
  getCurrentTime 5 (args [124]) h0 =
    (Panicked (SliceBoundsOutOfRange 124 132 128), h0) /\
  status_of (fst (getCurrentTime 5 (args [124]) h0)) <>
    Some (Status_int32 StatusInternalFailure).
Proof. split; [reflexivity|]. split; [reflexivity|discriminate]. Qed.

(** A reading written at 16 and read back; a pointer four bytes from the
    end and a negative pointer; two calls with increasing readings; and a
    reading before the epoch followed by the epoch itself. *)
Lemma getCurrentTime_writes_witness :
  fst (getCurrentTime 1700000000123456789 (args [16]) h0) =
    Done (Result (Some [NewI32 0]) None) /\
  le_value
    (bytes_at (memory_after (getCurrentTime 1700000000123456789 (args [16]) h0))
       16 8) = 1700000000123456789 /\
  out_of_bounds (getCurrentTime 5 (args [124]) h0) h0 /\
  out_of_bounds (getCurrentTime 5 (args [-8]) h0) h0 /\
  clock_calls [(3, NewI32 16); (5, NewI32 24)] h0 = [3; 5] /\
  (exists u v,
     clock_calls [(-1, NewI32 16); (0, NewI32 16)] h0 !! 0%nat = Some u /\
     clock_calls [(-1, NewI32 16); (0, NewI32 16)] h0 !! 1%nat = Some v /\
     ~ u <= v).
Proof.
  split; [|split; [|split; [|split; [|split]]]].
  - destruct (getCurrentTime_writes h0 (NewI32 16) 1700000000123456789 eq_refl)
      as (Hok & _).
    destruct (Hok ltac:(compute_bounds)) as (Hret & _). exact Hret.
  - destruct (getCurrentTime_writes h0 (NewI32 16) 1700000000123456789 eq_refl)
      as (Hok & _).
    destruct (Hok ltac:(compute_bounds)) as (_ & _ & _ & _ & Hval & _).
    exact Hval.
  - destruct (getCurrentTime_writes h0 (NewI32 124) 5 eq_refl)
      as (_ & _ & Hbad & _).
    destruct (Hbad ltac:(compute_bounds)) as (_ & Hoob & _). exact Hoob.
  - destruct (getCurrentTime_writes h0 (NewI32 (-8)) 5 eq_refl)
      as (_ & Hout & _).
    destruct (Hout ltac:(compute_bounds)) as (Hoob & _). exact Hoob.
  - destruct (getCurrentTime_writes h0 (NewI32 16) 0 eq_refl)
      as (_ & _ & _ & Hcalls).
    destruct (Hcalls [(3, NewI32 16); (5, NewI32 24)]) as (Hread & _).
    + repeat constructor; compute_bounds.
    + exact Hread.
  - destruct (getCurrentTime_writes h0 (NewI32 16) 0 eq_refl)
      as (_ & _ & _ & Hcalls).
    destruct (Hcalls [(-1, NewI32 16); (0, NewI32 16)]) as (_ & Hord).
    + repeat constructor; compute_bounds.
    + destruct (Hord 0%nat 1%nat (-1, NewI32 16) (0, NewI32 16))
        as (u & v & Hu & Hv & Hiff & _);
        [lia|reflexivity|reflexivity|simpl; lia..|].
      exists u, v. split; [exact Hu|]. split; [exact Hv|].
      intros Hle. apply Hiff in Hle. simpl in Hle. lia.
Defined.

(** Against C9 as stated: put-field of the key [ess] with the value [[1,2]]
    succeeds and leaves the module as it was; get-field of [ess] right after
    it finds nothing, and writes nothing to the guest's memory. *)
Lemma put_then_get_finds_nothing :
  let r := putField Json.Unmarshal (args [1; 3; 7; 5]) h0 in
  fst r = Done (Result (Some [NewI32 0]) None) /\
  module (snd r) = module h0 /\
  fst (getField Json.Marshal (args [1; 3; 16; 20]) (snd r)) =
    Done (Result (Some [NewI32 0]) None) /\
  memory_after (getField Json.Marshal (args [1; 3; 16; 20]) (snd r)) = memory0.
Proof. repeat split. Qed.

(** What a successful put-field leaves in the log. *)
Lemma host_state_frame_witness :
  events (snd (putField Json.Unmarshal (args [1; 3; 7; 5]) h0)) =
    [Log_put_field_raw (list_byte_of_string "ess") (list_byte_of_string "[1,2]");
     Log_put_field (list_byte_of_string "ess")
       (Json.JArray [Json.JNumber (list_byte_of_string "1");
                     Json.JNumber (list_byte_of_string "2")])].
Proof.
  destruct (host_state_frame Json.Marshal Json.Unmarshal h0
              (args [1; 3; 7; 5]) [] 0) as (_ & _ & _ & _ & _ & _ & Hput).
  destruct (Hput (NewI32 1) (NewI32 3) (NewI32 7) (NewI32 5)
              (Json.JArray [Json.JNumber (list_byte_of_string "1");
                            Json.JNumber (list_byte_of_string "2")])
              eq_refl eq_refl) as (_ & Hev);
    [compute_bounds|compute_bounds|reflexivity|].
  exact Hev.
Defined.

End OnSample.

(** ** Package fieldsyml *)

Section ResolveProperties.

Import Fieldsyml.

Context {source line other : Type}.
Variable source0 : source.
Variable line0 : line.
Variable other0 : other.
Variable GetField : string -> option ecs_Field.
Variable GetFieldSet : string -> list ecs_Field.

Local Abbreviation FlatField := (FlatField source line other).
Local Abbreviation of_ecs := (of_ecs source0 line0 other0).
Local Abbreviation lookupECSField :=
  (lookupECSField source0 line0 other0 GetField GetFieldSet).
Local Abbreviation resolve_step :=
  (resolve_step source0 line0 other0 GetField GetFieldSet).
Local Abbreviation ResolveECSReferences :=
  (ResolveECSReferences source0 line0 other0 GetField GetFieldSet).
Local Abbreviation unresolved :=
  (unresolved source0 line0 other0 GetField GetFieldSet).
Local Abbreviation expand :=
  (expand source0 line0 other0 GetField GetFieldSet).

Implicit Types (f r : FlatField) (flat : list FlatField).

Lemma foldl_append_map {A B} (g : B -> A) (l : list B) (acc : list A) :
  foldl (fun out x => out ++ [g x]) acc l = acc ++ map g l.
Proof.
  revert acc. induction l as [|x l IH]; intros acc; simpl.
  - by rewrite app_nil_r.
  - by rewrite IH, <- app_assoc.
Qed.

Lemma lookupECSField_map name :
  lookupECSField name =
    match GetField name with
    | Some e => [of_ecs e]
    | None => map of_ecs (GetFieldSet name)
    end.
Proof.
  unfold Fieldsyml.lookupECSField. destruct (GetField name); [done|].
  by rewrite foldl_append_map.
Qed.

Lemma lookupECSField_nil name :
  lookupECSField name = [] <-> GetField name = None /\ GetFieldSet name = [].
Proof.
  rewrite lookupECSField_map. destruct (GetField name) as [e|].
  - split; [done|]. by intros [? _].
  - destruct (GetFieldSet name); simpl; split; try done. by intros [_ ?].
Qed.

Lemma lookupECSField_elem name r :
  r ∈ lookupECSField name <->
  exists e, r = of_ecs e /\
    (GetField name = Some e \/ (GetField name = None /\ e ∈ GetFieldSet name)).
Proof.
  rewrite lookupECSField_map. destruct (GetField name) as [e0|].
  - rewrite list_elem_of_singleton. split.
    + intros ->. exists e0. auto.
    + intros (e & -> & [[= ->]|[? _]]); done.
  - rewrite list_elem_of_fmap. split.
    + intros (e & -> & He). exists e. auto.
    + intros (e & -> & [?|[_ He]]); [done|]. by exists e.
Qed.

Lemma resolve_step_expand out b f :
  resolve_step (out, b) f = (out ++ expand f, b || unresolved f).
Proof.
  unfold Fieldsyml.resolve_step, Fieldsyml.expand, Fieldsyml.unresolved,
    Fieldsyml.is_ecs.
  destruct (bool_decide (External f = "ecs")); simpl.
  - destruct (lookupECSField (Name f)) as [|r0 fields] eqn:Hl; simpl;
      rewrite ?Hl.
    + by rewrite orb_true_r.
    + rewrite foldl_append_map. simpl. by rewrite <- app_assoc, orb_false_r.
  - by rewrite orb_false_r.
Qed.

Lemma foldl_resolve_step flat out b :
  foldl resolve_step (out, b) flat =
    (out ++ concat (map expand flat), b || existsb unresolved flat).
Proof.
  revert out b. induction flat as [|f flat IH]; intros out b;
    cbn [foldl map concat existsb].
  - by rewrite app_nil_r, orb_false_r.
  - by rewrite resolve_step_expand, IH, <- app_assoc, <- orb_assoc.
Qed.

Lemma Resolve_expand flat :
  ResolveECSReferences flat =
    (concat (map expand flat), existsb unresolved flat).
Proof. unfold Fieldsyml.ResolveECSReferences. by rewrite foldl_resolve_step. Qed.

Lemma is_ecs_true f : is_ecs f = true <-> External f = "ecs".
Proof. unfold is_ecs. apply bool_decide_eq_true. Qed.

Lemma unresolved_true f :
  unresolved f = true <->
  External f = "ecs" /\ GetField (Name f) = None /\ GetFieldSet (Name f) = [].
Proof.
  unfold Fieldsyml.unresolved. rewrite andb_true_iff, is_ecs_true.
  rewrite <- lookupECSField_nil.
  destruct (lookupECSField (Name f)); split; intros [? ?]; done.
Qed.

Lemma elem_of_expand r f :
  r ∈ expand f <->
  (r = f /\ (External f <> "ecs" \/ unresolved f = true)) \/
  (External f = "ecs" /\ unresolved f = false /\
   exists e, r = with_source f (of_ecs e) /\
     (GetField (Name f) = Some e \/
      (GetField (Name f) = None /\ e ∈ GetFieldSet (Name f)))).
Proof.
  unfold Fieldsyml.expand.
  destruct (is_ecs f) eqn:He; [apply is_ecs_true in He|
    apply bool_decide_eq_false in He]; simpl.
  - destruct (unresolved f) eqn:Hu; simpl.
    + rewrite list_elem_of_singleton. split; [auto|].
      intros [[? _]|(_ & ? & _)]; done.
    + rewrite list_elem_of_fmap. split.
      * intros (r0 & -> & (e & -> & Hl)%lookupECSField_elem).
        right. eauto 10.
      * intros [[_ [?|?]]|(_ & _ & e & -> & Hl)]; try done.
        exists (of_ecs e). split; [done|].
        apply lookupECSField_elem. eauto.
  - rewrite list_elem_of_singleton. split; [auto|].
    intros [[? _]|(? & _)]; done.
Qed.

Lemma elem_of_concat_expand r flat :
  r ∈ concat (map expand flat) <-> exists f, f ∈ flat /\ r ∈ expand f.
Proof.
  induction flat as [|f0 flat IH]; cbn [map concat].
  - rewrite elem_of_nil. split; [done|]. by intros (f & ?%elem_of_nil & _).
  - rewrite elem_of_app, IH. setoid_rewrite elem_of_cons. split.
    + intros [?|(f & ? & ?)]; eauto.
    + intros (f & [->|?] & ?); eauto.
Qed.

(** X1. Resolving a concatenation is resolving its two parts: the results
    follow each other and the flag is the disjunction of the two flags. *)
Theorem ResolveECSReferences_app flat1 flat2 :
  ResolveECSReferences (flat1 ++ flat2) =
    (fst (ResolveECSReferences flat1) ++ fst (ResolveECSReferences flat2),
     snd (ResolveECSReferences flat1) || snd (ResolveECSReferences flat2)).
Proof.
  rewrite !Resolve_expand. cbn [fst snd].
  by rewrite map_app, concat_app, existsb_app.
Qed.

(** X2. A list without a reference to ECS comes back as it is, with the
    flag unset, whatever the ECS definitions are. *)
Theorem ResolveECSReferences_no_reference flat :
  Forall (fun f => External f <> "ecs") flat ->
  ResolveECSReferences flat = (flat, false).
Proof.
  intros Hall. rewrite Resolve_expand.
  induction Hall as [|f flat Hf Hall IH]; [done|].
  injection IH as IH1 IH2. cbn [map concat existsb].
  rewrite IH1, IH2. unfold Fieldsyml.expand, Fieldsyml.unresolved.
  assert (Hno : is_ecs f = false) by (by apply bool_decide_eq_false).
  by rewrite Hno.
Qed.

(** X3. The flag is set exactly when some reference to ECS in the input has
    no definition, neither as a field nor as a field set; every such
    reference is in the result, unchanged. *)
Theorem hasUnresolved_iff flat :
  (snd (ResolveECSReferences flat) = true <->
   exists f, f ∈ flat /\ External f = "ecs" /\
     GetField (Name f) = None /\ GetFieldSet (Name f) = []) /\
  (forall f, f ∈ flat -> External f = "ecs" ->
     GetField (Name f) = None -> GetFieldSet (Name f) = [] ->
     f ∈ fst (ResolveECSReferences flat)).
Proof.
  rewrite Resolve_expand. cbn [fst snd]. split.
  - rewrite existsb_exists. setoid_rewrite list_elem_of_In.
    by setoid_rewrite unresolved_true.
  - intros f Hin He Hf Hs. apply elem_of_concat_expand. exists f.
    split; [done|]. apply elem_of_expand. left. split; [done|]. right.
    by apply unresolved_true.
Qed.

(** X4. Where a field of the result comes from. It is an input field kept
    as it is, one that is no reference to ECS or one that has no
    definition; or it is a definition of ECS, found under the name of an
    input reference as the field of that name or, when there is none, in
    the field set of that name, with the source and the source line of
    that reference. *)
Theorem resolved_origin flat r :
  r ∈ fst (ResolveECSReferences flat) ->
  exists f, f ∈ flat /\
    Source r = Source f /\ SourceLine r = SourceLine f /\
    ((r = f /\
      (External f <> "ecs" \/
       (GetField (Name f) = None /\ GetFieldSet (Name f) = []))) \/
     (External f = "ecs" /\
      exists e,
        (GetField (Name f) = Some e \/
         (GetField (Name f) = None /\ e ∈ GetFieldSet (Name f))) /\
        r = with_source f (of_ecs e) /\
        Name r = FlatName e /\ Type_ r = ecs_Type e /\
        Description r = ecs_Description e /\ External r = "ecs")).
Proof.
  rewrite Resolve_expand. cbn [fst].
  intros (f & Hin & Hr)%elem_of_concat_expand. exists f. split; [done|].
  apply elem_of_expand in Hr
    as [[-> Hkept]|(He & _ & e & -> & Hfound)].
  - split; [done|]. split; [done|]. left. split; [done|].
    destruct Hkept as [?|(_ & ?)%unresolved_true]; auto.
  - split; [done|]. split; [done|]. right. split; [done|].
    exists e. by repeat split.
Qed.

Lemma expand_length f : (1 <= length (expand f))%nat.
Proof.
  unfold Fieldsyml.expand, Fieldsyml.unresolved.
  destruct (is_ecs f); simpl; [|lia].
  destruct (lookupECSField (Name f)); simpl; lia.
Qed.

Lemma expand_filter f :
  filter (fun f => External f <> "ecs") (expand f) =
  filter (fun f => External f <> "ecs") [f].
Proof.
  unfold Fieldsyml.expand, Fieldsyml.unresolved.
  destruct (is_ecs f) eqn:He; simpl; [|done].
  apply is_ecs_true in He.
  rewrite lookupECSField_map.
  assert (Hnone : forall l : list ecs_Field,
    filter (fun f => External f <> "ecs") (map (with_source f) (map of_ecs l))
    = []).
  { induction l as [|e l IH]; [done|]. cbn [map].
    by rewrite filter_cons_False by (by intros Hne; apply Hne). }
  rewrite (filter_cons_False _ f) by (by intros Hne; apply Hne).
  destruct (GetField (Name f)) as [e|].
  - apply (Hnone [e]).
  - destruct (GetFieldSet (Name f)) as [|e l] eqn:Hs; simpl.
    + by rewrite filter_cons_False by (by intros Hne; apply Hne).
    + apply (Hnone (e :: l)).
Qed.

(** X5. No input field is lost: the result is at least as long as the
    input, and its fields that are no references to ECS are those of the
    input, in the same order. *)
Theorem ResolveECSReferences_keeps flat :
  (length flat <= length (fst (ResolveECSReferences flat)))%nat /\
  filter (fun f => External f <> "ecs") (fst (ResolveECSReferences flat)) =
  filter (fun f => External f <> "ecs") flat.
Proof.
  rewrite Resolve_expand. cbn [fst].
  induction flat as [|f flat [IHlen IHfilter]]; [done|].
  cbn [map concat]. rewrite length_app, filter_app, IHfilter, expand_filter.
  pose proof (expand_length f). split; [simpl; lia|].
  by rewrite <- filter_app.
Qed.

(** X6. When the flag is unset, every field of the result that refers to
    ECS is a definition of ECS: it has the name, the type and the
    description of an ECS field found under the name of an input
    reference. *)
Theorem resolved_all_defined flat r :
  snd (ResolveECSReferences flat) = false ->
  r ∈ fst (ResolveECSReferences flat) ->
  External r = "ecs" ->
  exists f e, f ∈ flat /\ External f = "ecs" /\
    (GetField (Name f) = Some e \/
     (GetField (Name f) = None /\ e ∈ GetFieldSet (Name f))) /\
    Name r = FlatName e /\ Type_ r = ecs_Type e /\
    Description r = ecs_Description e /\
    Source r = Source f /\ SourceLine r = SourceLine f.
Proof.
  rewrite Resolve_expand. cbn [fst snd].
  intros Hflag (f & Hin & Hr)%elem_of_concat_expand Hecs.
  apply elem_of_expand in Hr as [[-> [Hne|Hu]]|(He & _ & e & -> & Hfound)].
  - done.
  - assert (existsb unresolved flat = true) as Hex; [|congruence].
    apply existsb_exists. exists f. split; [|done]. by apply list_elem_of_In.
  - exists f, e. by repeat split.
Qed.

End ResolveProperties.

Section ResolveOnSample.

Import Fieldsyml Fieldsyml.Sample.

(** Two fields of the package itself. *)
Lemma ResolveECSReferences_no_reference_witness : resolve own = (own, false).
Proof.
  apply ResolveECSReferences_no_reference.
  repeat constructor; simpl; discriminate.
Defined.

(** A reference that ECS does not define, after two that it does. *)
Lemma hasUnresolved_iff_witness :
  snd (resolve (refs ++ [dangling])) = true /\
  dangling ∈ fst (resolve (refs ++ [dangling])).
Proof.
  destruct (hasUnresolved_iff EmptyString 0 tt GetField GetFieldSet
              (refs ++ [dangling])) as [Hflag Hkept].
  assert (Hin : dangling ∈ refs ++ [dangling]).
  { apply elem_of_app. right. apply list_elem_of_singleton. reflexivity. }
  split.
  - apply Hflag. exists dangling. repeat split; [exact Hin|..]; reflexivity.
  - apply Hkept; [exact Hin|reflexivity..].
Defined.

(** The second field of the set [geo], at line 4 of [ecs.yml]. *)
Lemma resolved_origin_witness :
  exists f, f ∈ refs /\
    Source (with_source (field "geo" "ecs" "ecs.yml" 4)
              (of_ecs EmptyString 0 tt geo_location)) = Source f /\
    SourceLine (with_source (field "geo" "ecs" "ecs.yml" 4)
                  (of_ecs EmptyString 0 tt geo_location)) = SourceLine f.
Proof.
  destruct (resolved_origin EmptyString 0 tt GetField GetFieldSet refs
              (with_source (field "geo" "ecs" "ecs.yml" 4)
                 (of_ecs EmptyString 0 tt geo_location)))
    as (f & Hin & Hsrc & Hline & _).
  - do 2 apply list_elem_of_further. apply list_elem_of_here.
  - exists f. split; [exact Hin|]. split; [exact Hsrc|exact Hline].
Defined.

Lemma resolved_all_defined_witness :
  exists f e, f ∈ refs /\
    (GetField (Name f) = Some e \/
     (GetField (Name f) = None /\ e ∈ GetFieldSet (Name f))) /\
    FlatName e = "host.name" /\ ecs_Type e = "keyword".
Proof.
  destruct (resolved_all_defined EmptyString 0 tt GetField GetFieldSet refs
              (with_source (field "host.name" "ecs" "ecs.yml" 2)
                 (of_ecs EmptyString 0 tt host_name)))
    as (f & e & Hin & _ & Hfound & Hname & Htype & _).
  - reflexivity.
  - apply list_elem_of_here.
  - reflexivity.
  - exists f, e. split; [exact Hin|]. split; [exact Hfound|].
    split; [symmetry; exact Hname|symmetry; exact Htype].
Defined.

End ResolveOnSample.

(** ** Package terraform *)

Section MarshalProperties.

Import Terraform.

Context {any : Type}.
Variable any_of_string : string -> any.
Variable json_Marshal : gmap string any -> list byte + string.

Local Abbreviation clone_in := (clone_in any any_of_string).
Local Abbreviation MarshalJSON_in :=
  (MarshalJSON_in any any_of_string json_Marshal).
Local Abbreviation MarshalJSON := (MarshalJSON any any_of_string json_Marshal).

Lemma foldl_insert_reverse (order : list (string * any)) (acc : gmap string any) :
  foldl (fun clone kv => <[kv.1 := kv.2]> clone) acc order =
  foldr (fun kv clone => <[kv.1 := kv.2]> clone) acc (reverse order).
Proof.
  revert acc. induction order as [|kv order IH]; intros acc; [done|].
  cbn [foldl]. by rewrite IH, reverse_cons, foldr_app.
Qed.

(** The loop copies the map, in whatever order it visits the entries. *)
Lemma clone_loop (params : gmap string any) order :
  order ≡ₚ map_to_list params ->
  foldl (fun clone kv => <[kv.1 := kv.2]> clone) ∅ order = params.
Proof.
  intros Hperm. rewrite foldl_insert_reverse.
  change (list_to_map (M := gmap string any) (reverse order) = params).
  transitivity (list_to_map (M := gmap string any) (map_to_list params));
    [|apply list_to_map_to_list].
  apply list_to_map_proper.
  - rewrite fmap_reverse, reverse_Permutation, Hperm.
    apply NoDup_fst_map_to_list.
  - by rewrite reverse_Permutation.
Qed.

(** X7. The map that [Module.MarshalJSON] encodes is [Params] with the key
    [source] set to the module's source: a parameter named [source] is
    overridden, every other parameter is kept, and the order in which the
    loop visits the entries does not matter. *)
Theorem MarshalJSON_source_wins (m : Module_ any) order :
  order ≡ₚ map_to_list (Params m) ->
  clone_in order m = <["source" := any_of_string (Source m)]> (Params m) /\
  clone_in order m !! "source" = Some (any_of_string (Source m)) /\
  (forall k, k <> "source" -> clone_in order m !! k = Params m !! k) /\
  MarshalJSON_in order m = MarshalJSON m.
Proof.
  intros Hperm.
  assert (Hclone : forall o, o ≡ₚ map_to_list (Params m) ->
    clone_in o m = <["source" := any_of_string (Source m)]> (Params m)).
  { intros o Ho. unfold Terraform.clone_in.
    by rewrite (clone_loop (Params m) o Ho). }
  rewrite (Hclone order Hperm). split; [done|].
  split; [apply lookup_insert_eq|].
  split; [intros k Hk; by apply lookup_insert_ne|].
  unfold Terraform.MarshalJSON, Terraform.MarshalJSON_in.
  by rewrite !Hclone.
Qed.

End MarshalProperties.

Section MarshalOnSample.

Import Terraform Terraform.Sample.

(** A block whose parameters name [source] themselves, visited last key
    first. *)
Lemma MarshalJSON_source_wins_witness :
  clone_in string id (reverse order) block !! "source" = Some "./modules/vpc"%string /\
  clone_in string id (reverse order) block !! "cidr" = Some "10.0.0.0/16"%string.
Proof.
  destruct (MarshalJSON_source_wins id (fun _ => inl []) block (reverse order))
    as (_ & Hsource & Hother & _).
  - rewrite reverse_Permutation. symmetry. apply map_to_list_to_map.
    apply (bool_decide_unpack _). vm_compute. exact I.
  - split; [exact Hsource|].
    rewrite Hother by discriminate. reflexivity.
Defined.

End MarshalOnSample.

(** ** The host functions at the edges *)

Section HostEdges.

Context {jvalue : Type}.
Variable json_Marshal : list byte -> list byte + string.
Variable json_Unmarshal : list byte -> jvalue + string.

Implicit Types (h : host jvalue) (a : Value).

Ltac host_split :=
  unfold bind, GetMemory, PutUint32, PutUint64, slice, copy_to, malloc, emit,
    ok, fail, fail_with, ret;
  repeat
    (cbn [fst snd module events instance with_Data with_instance mallocFunc
          Data GetMemory_err];
     match goal with
     | |- context [GetMemory_err ?i] => destruct (GetMemory_err i) eqn:?
     | |- context [slice_ok ?m ?a ?b] => destruct (slice_ok m a b) eqn:?
     | |- context [decide ?P] => destruct (decide P)
     | |- context [json_Unmarshal ?v] => destruct (json_Unmarshal v) eqn:?
     | |- context [json_Marshal ?v] => destruct (json_Marshal v) eqn:?
     | |- context [mallocFunc ?m ?n ?i] =>
         destruct (mallocFunc m n i) as [[?|?] ?] eqn:?
     end);
  cbn [fst snd module events instance with_Data with_instance mallocFunc
       Data GetMemory_err].

Lemma not_in_bounds_slice (mem : list byte) p l :
  is_int32 p -> is_int32 l -> ~ in_bounds mem p l ->
  slice_ok mem p (int32 (p + l)) = false.
Proof.
  intros Hp Hl Hno. destruct (slice_ok mem p (int32 (p + l))) eqn:Hok; [|done].
  by apply slice_ok_pair in Hok.
Qed.

Lemma is_int32_4 : is_int32 4.
Proof. unfold is_int32. lia. Qed.

Lemma is_int32_8 : is_int32 8.
Proof. unfold is_int32. lia. Qed.

(** X8. What a host function returns when it returns: the error is nil
    exactly when the values are the single status OK, so that a status other
    than OK never comes without an error, and the status NotFound is
    returned by none of the four. *)
Theorem status_and_error h args now r :
  fst (getField json_Marshal args h) = Done r \/
  fst (putField json_Unmarshal args h) = Done r \/
  fst (log args h) = Done r \/
  fst (getCurrentTime now args h) = Done r ->
  (err r = None <-> values r = Some [NewI32 (Status_int32 StatusOK)]) /\
  status_of (Done r) <> Some (Status_int32 StatusNotFound).
Proof.
  intros [Hr|[Hr|[Hr|Hr]]]; revert Hr.
  - destruct args as [|? [|? [|? [|? [|? ?]]]]];
      try (intros [= <-]; by split).
    unfold getField. host_split; intros [= <-]; by split.
  - destruct args as [|? [|? [|? [|? [|? ?]]]]];
      try (intros [= <-]; by split).
    unfold putField. host_split; intros [= <-]; by split.
  - destruct args as [|? [|? [|? [|? ?]]]];
      try (intros [= <-]; by split).
    unfold log. host_split; intros [= <-]; by split.
  - destruct args as [|? [|? ?]];
      try (intros [= <-]; by split).
    unfold getCurrentTime. host_split; intros [= <-]; by split.
Qed.

Lemma log_run h a0 a1 a2 :
  GetMemory_err (instance (module h)) = None ->
  in_bounds (Data (instance (module h))) (I32 a1) (I32 a2) ->
  log [a0; a1; a2] h =
    (Done (Result (Some [NewI32 (Status_int32 StatusOK)]) None),
     Host (module h)
       (events h ++
        [Log_guest (I32 a0)
           (bytes_at (Data (instance (module h))) (I32 a1) (I32 a2))])).
Proof.
  intros Hmem Hin. unfold log, bind, GetMemory. rewrite Hmem.
  by rewrite slice_done by (done || apply I32_range).
Qed.

Lemma out_of_bounds_not_done {A} (c : outcome A * host jvalue) h :
  out_of_bounds c h -> ~ exists x h', c = (Done x, h').
Proof. intros (lo & hi & ->) (x & h' & [=]). Qed.

(** X9. The exact domain of the memory accesses. With the export [memory]
    in place, log returns exactly when its message is [in_bounds],
    get-current-time exactly when its eight bytes are, put-field exactly
    when its two buffers are; otherwise each of the three stops on the
    bounds panic with the host untouched, put-field having logged nothing.
    In particular a pointer, a length or an end at or above [2 ^ 31] is
    refused whatever the size of the memory, the arguments being read as
    signed. *)
Theorem access_domain h a0 a1 a2 a3 now :
  GetMemory_err (instance (module h)) = None ->
  let mem := Data (instance (module h)) in
  ((exists r h', log [a0; a1; a2] h = (Done r, h')) <->
   in_bounds mem (I32 a1) (I32 a2)) /\
  ((exists r h', getCurrentTime now [a0] h = (Done r, h')) <->
   in_bounds mem (I32 a0) 8) /\
  ((exists r h', putField json_Unmarshal [a0; a1; a2; a3] h = (Done r, h')) <->
   in_bounds mem (I32 a0) (I32 a1) /\ in_bounds mem (I32 a2) (I32 a3)) /\
  (~ in_bounds mem (I32 a1) (I32 a2) -> out_of_bounds (log [a0; a1; a2] h) h) /\
  (~ in_bounds mem (I32 a0) 8 ->
   out_of_bounds (getCurrentTime now [a0] h) h) /\
  (~ (in_bounds mem (I32 a0) (I32 a1) /\ in_bounds mem (I32 a2) (I32 a3)) ->
   out_of_bounds (putField json_Unmarshal [a0; a1; a2; a3] h) h) /\
  (forall p l, is_int32 p -> is_int32 l ->
   2 ^ 31 <= uint32 p \/ 2 ^ 31 <= uint32 l \/
   2 ^ 31 <= uint32 p + uint32 l ->
   ~ in_bounds mem p l).
Proof.
  intros Hmem mem.
  assert (Hlog : ~ in_bounds mem (I32 a1) (I32 a2) ->
                 out_of_bounds (log [a0; a1; a2] h) h).
  { intros Hno. unfold log, bind, GetMemory. rewrite Hmem.
    unfold slice. fold mem.
    rewrite not_in_bounds_slice by (done || apply I32_range).
    by eexists _, _. }
  assert (Htime : ~ in_bounds mem (I32 a0) 8 ->
                  out_of_bounds (getCurrentTime now [a0] h) h).
  { intros Hno. unfold getCurrentTime, bind, GetMemory, PutUint64.
    rewrite Hmem. unfold copy_to. fold mem.
    rewrite not_in_bounds_slice
      by (done || apply I32_range || apply is_int32_8).
    by eexists _, _. }
  assert (Hput : ~ (in_bounds mem (I32 a0) (I32 a1) /\
                    in_bounds mem (I32 a2) (I32 a3)) ->
                 out_of_bounds (putField json_Unmarshal [a0; a1; a2; a3] h) h).
  { intros Hno. unfold putField, bind, GetMemory. rewrite Hmem.
    destruct (slice_ok mem (I32 a0) (int32 (I32 a0 + I32 a1))) eqn:Hkey.
    - apply slice_ok_pair in Hkey; [|apply I32_range..].
      rewrite slice_done by (done || apply I32_range).
      unfold slice. fold mem.
      rewrite not_in_bounds_slice
        by (apply I32_range || (intros Hval; apply Hno; by split)).
      by eexists _, _.
    - unfold slice at 1. fold mem. rewrite Hkey. by eexists _, _. }
  split; [|split; [|split; [|split; [|split; [|split]]]]]; try done.
  - split.
    + intros Hdone. destruct (decide (in_bounds mem (I32 a1) (I32 a2)))
        as [|Hno]; [done|].
      by destruct (out_of_bounds_not_done _ _ (Hlog Hno)).
    + intros Hin. rewrite log_run by done. by eexists _, _.
  - split.
    + intros Hdone. destruct (decide (in_bounds mem (I32 a0) 8))
        as [|Hno]; [done|].
      by destruct (out_of_bounds_not_done _ _ (Htime Hno)).
    + intros Hin. rewrite getCurrentTime_run by done. by eexists _, _.
  - split.
    + intros Hdone.
      destruct (decide (in_bounds mem (I32 a0) (I32 a1) /\
                        in_bounds mem (I32 a2) (I32 a3))) as [|Hno]; [done|].
      by destruct (out_of_bounds_not_done _ _ (Hput Hno)).
    + intros [Hk Hv]. rewrite putField_run by done.
      destruct (json_Unmarshal _); by eexists _, _.
  - intros p l Hp Hl Hhigh (H0 & H1 & _ & H3).
    rewrite !uint32_int32 in Hhigh by done.
    destruct (Z.leb_spec 0 p), (Z.leb_spec 0 l); lia.
Qed.

(** get-field on the present field, up to the copy of the value: what is
    left to do are the two writes of the out-parameters. *)
Lemma getField_hit_steps h a0 a1 a2 a3 value ptr i' :
  GetMemory_err (instance (module h)) = None ->
  in_bounds (Data (instance (module h))) (I32 a0) (I32 a1) ->
  bytes_at (Data (instance (module h))) (I32 a0) (I32 a1) = message ->
  json_Marshal raw = inl value ->
  let size := Z.of_nat (length value) in
  mallocFunc (module h) size (instance (module h)) = (inl ptr, i') ->
  in_bounds (Data i') ptr size ->
  getField json_Marshal [a0; a1; a2; a3] h =
    bind (PutUint32 (I32 a2) (int32 (I32 a2 + 4)) (uint32 ptr))
      (fun _ =>
         bind (PutUint32 (I32 a3) (int32 (I32 a3 + 4)) (uint32 size))
           (fun _ => ok 0))
      (Host (with_Data (with_instance (module h) i')
               (list_inserts (Z.to_nat ptr) value (Data i')))
         (events h ++ [Log_get_field message; Call_malloc size])).
Proof.
  intros Hmem Hin Hname Henc size Hmalloc Hbuf.
  destruct (in_bounds_int32 _ _ _ Hbuf) as [Hptr Hsize].
  unfold getField. unfold bind at 1 2 3 4 5. unfold GetMemory. rewrite Hmem.
  rewrite slice_done by (done || apply I32_range).
  rewrite Hname. unfold emit. cbn [module events].
  destruct (decide (message = message)); [|done].
  rewrite Henc. fold size. rewrite (int32_small size) by done.
  unfold malloc. cbn [module events]. rewrite Hmalloc.
  rewrite (int32_small ptr) by done.
  unfold size at 1. rewrite copy_to_done by done.
  cbn [module events instance with_instance Data].
  rewrite <- (app_assoc (events h)). reflexivity.
Qed.

Lemma PutUint32_panics h p v :
  ~ in_bounds (Data (instance (module h))) p 4 -> is_int32 p ->
  PutUint32 p (int32 (p + 4)) v h =
    (Panicked (SliceBoundsOutOfRange p (int32 (p + 4))
                 (length (Data (instance (module h))))), h).
Proof.
  intros Hno Hp. unfold PutUint32, copy_to.
  by rewrite not_in_bounds_slice by (done || apply is_int32_4).
Qed.

(** X10. get-field is not all or nothing. On the present field, once the
    allocator has answered and the value has been copied, an out-parameter
    slot out of range stops the call on the bounds panic with the guest
    memory already changed: the allocation is made and the value is in
    place, and when it is the second slot that is out of range the pointer
    has been written to the first one as well. *)
Theorem getField_partial_write h a0 a1 a2 a3 value ptr i' :
  GetMemory_err (instance (module h)) = None ->
  in_bounds (Data (instance (module h))) (I32 a0) (I32 a1) ->
  bytes_at (Data (instance (module h))) (I32 a0) (I32 a1) = message ->
  json_Marshal raw = inl value ->
  let size := Z.of_nat (length value) in
  mallocFunc (module h) size (instance (module h)) = (inl ptr, i') ->
  in_bounds (Data i') ptr size ->
  let copied := list_inserts (Z.to_nat ptr) value (Data i') in
  let r := getField json_Marshal [a0; a1; a2; a3] h in
  (~ in_bounds (Data i') (I32 a2) 4 ->
     fst r = Panicked (SliceBoundsOutOfRange (I32 a2) (int32 (I32 a2 + 4))
                         (length (Data i'))) /\
     memory_after r = copied /\
     bytes_at (memory_after r) ptr size = value /\
     events (snd r) = events h ++ [Log_get_field message; Call_malloc size]) /\
  (in_bounds (Data i') (I32 a2) 4 -> ~ in_bounds (Data i') (I32 a3) 4 ->
     fst r = Panicked (SliceBoundsOutOfRange (I32 a3) (int32 (I32 a3 + 4))
                         (length (Data i'))) /\
     memory_after r =
       list_inserts (Z.to_nat (I32 a2)) (le_bytes 4 (uint32 ptr)) copied).
Proof.
  intros Hmem Hin Hname Henc size Hmalloc Hbuf copied r. subst r.
  rewrite (getField_hit_steps h a0 a1 a2 a3 value ptr i') by done.
  fold size copied.
  set (h1 := Host (with_Data (with_instance (module h) i') copied)
               (events h ++ [Log_get_field message; Call_malloc size])).
  assert (Hlen : length copied = length (Data i'))
    by (unfold copied; by rewrite length_inserts).
  assert (Hdata : Data (instance (module h1)) = copied) by done.
  split.
  - intros Hno.
    assert (Hr : bind (PutUint32 (I32 a2) (int32 (I32 a2 + 4)) (uint32 ptr))
        (fun _ =>
           bind (PutUint32 (I32 a3) (int32 (I32 a3 + 4)) (uint32 size))
             (fun _ => ok 0)) h1
      = (Panicked (SliceBoundsOutOfRange (I32 a2) (int32 (I32 a2 + 4))
                     (length (Data i'))), h1)).
    { unfold bind at 1. rewrite PutUint32_panics.
      - by rewrite Hdata, Hlen.
      - rewrite Hdata. intros Hin'. apply Hno. by eapply in_bounds_length.
      - apply I32_range. }
    rewrite Hr. unfold memory_after. cbn [fst snd]. rewrite Hdata.
    split; [done|]. split; [done|]. split; [|done].
    destruct Hbuf as (? & ? & ? & ?). apply bytes_at_same; by try lia.
  - intros Hs1 Hno.
    assert (Hr : bind (PutUint32 (I32 a2) (int32 (I32 a2 + 4)) (uint32 ptr))
        (fun _ =>
           bind (PutUint32 (I32 a3) (int32 (I32 a3 + 4)) (uint32 size))
             (fun _ => ok 0)) h1
      = (Panicked (SliceBoundsOutOfRange (I32 a3) (int32 (I32 a3 + 4))
                     (length (Data i'))),
         Host (with_Data (module h1)
                 (list_inserts (Z.to_nat (I32 a2)) (le_bytes 4 (uint32 ptr))
                    copied))
              (events h1))).
    { unfold bind at 1. rewrite PutUint32_done.
      2: { rewrite Hdata. by eapply in_bounds_length. }
      unfold bind at 1. rewrite PutUint32_panics.
      - cbn [module instance with_Data with_instance Data].
        by rewrite Hdata, length_inserts, Hlen.
      - cbn [module instance with_Data with_instance Data].
        intros Hin'. apply Hno. eapply in_bounds_length; [|exact Hin'].
        by rewrite Hdata, length_inserts, Hlen.
      - apply I32_range. }
    rewrite Hr. unfold memory_after. by cbn [fst snd].
Qed.

(** X11. The two out-parameters must be two slots. When the guest passes the
    same address for both, get-field on the present field still returns the
    status OK, and the slot holds what was written last: the length of the
    value, not the pointer to it. *)
Theorem getField_same_slot h a0 a1 a2 a3 value ptr i' :
  GetMemory_err (instance (module h)) = None ->
  in_bounds (Data (instance (module h))) (I32 a0) (I32 a1) ->
  bytes_at (Data (instance (module h))) (I32 a0) (I32 a1) = message ->
  json_Marshal raw = inl value ->
  let size := Z.of_nat (length value) in
  mallocFunc (module h) size (instance (module h)) = (inl ptr, i') ->
  in_bounds (Data i') ptr size ->
  in_bounds (Data i') (I32 a2) 4 ->
  I32 a3 = I32 a2 ->
  let r := getField json_Marshal [a0; a1; a2; a3] h in
  fst r = Done (Result (Some [NewI32 (Status_int32 StatusOK)]) None) /\
  le_value (bytes_at (memory_after r) (I32 a2) 4) = size.
Proof.
  intros Hmem Hin Hname Henc size Hmalloc Hbuf Hslot Hsame r. subst r.
  rewrite (getField_hit_steps h a0 a1 a2 a3 value ptr i') by done.
  fold size. rewrite Hsame.
  set (copied := list_inserts (Z.to_nat ptr) value (Data i')).
  set (h1 := Host (with_Data (with_instance (module h) i') copied)
               (events h ++ [Log_get_field message; Call_malloc size])).
  assert (Hlen : length copied = length (Data i'))
    by (unfold copied; by rewrite length_inserts).
  assert (Hr : bind (PutUint32 (I32 a2) (int32 (I32 a2 + 4)) (uint32 ptr))
      (fun _ =>
         bind (PutUint32 (I32 a2) (int32 (I32 a2 + 4)) (uint32 size))
           (fun _ => ok 0)) h1
    = (Done (Result (Some [NewI32 (Status_int32 StatusOK)]) None),
       Host (with_Data (module h1)
               (list_inserts (Z.to_nat (I32 a2)) (le_bytes 4 (uint32 size))
                  (list_inserts (Z.to_nat (I32 a2)) (le_bytes 4 (uint32 ptr))
                     copied)))
            (events h1))).
  { unfold bind at 1. rewrite PutUint32_done.
    2: { by eapply in_bounds_length. }
    unfold bind at 1. rewrite PutUint32_done.
    2: { cbn [module instance with_Data with_instance Data].
         eapply in_bounds_length; [|exact Hslot].
         unfold h1. cbn [module instance with_Data with_instance Data].
         by rewrite length_inserts, Hlen. }
    done. }
  rewrite Hr. unfold memory_after.
  cbn [fst snd module events instance with_Data with_instance Data].
  split; [done|].
  destruct Hslot as (? & _ & ? & ?), Hbuf as (? & ? & ? & ?).
  rewrite bytes_at_same by (rewrite ?length_inserts, ?length_le_bytes; lia).
  rewrite le_value_bytes. unfold uint32. rewrite Z.mod_mod by lia.
  apply Z.mod_small. unfold size in *. lia.
Qed.

(** X12. What get-field writes on the present field. When it returns, the
    guest memory has the length the allocator left, and every range that
    meets neither the allocated buffer nor the two out-parameter slots holds
    the bytes the allocator left there. *)
Theorem getField_hit_frame h a0 a1 a2 a3 value ptr i' q n :
  GetMemory_err (instance (module h)) = None ->
  in_bounds (Data (instance (module h))) (I32 a0) (I32 a1) ->
  bytes_at (Data (instance (module h))) (I32 a0) (I32 a1) = message ->
  json_Marshal raw = inl value ->
  let size := Z.of_nat (length value) in
  mallocFunc (module h) size (instance (module h)) = (inl ptr, i') ->
  in_bounds (Data i') ptr size ->
  in_bounds (Data i') (I32 a2) 4 ->
  in_bounds (Data i') (I32 a3) 4 ->
  0 <= q -> 0 <= n ->
  disjoint ptr size q n ->
  disjoint (I32 a2) 4 q n ->
  disjoint (I32 a3) 4 q n ->
  let r := getField json_Marshal [a0; a1; a2; a3] h in
  length (memory_after r) = length (Data i') /\
  bytes_at (memory_after r) q n = bytes_at (Data i') q n.
Proof.
  intros Hmem Hin Hname Henc size Hmalloc Hbuf Hs1 Hs2 Hq Hn D1 D2 D3 r.
  subst r.
  rewrite (getField_hit_steps h a0 a1 a2 a3 value ptr i') by done.
  fold size.
  set (copied := list_inserts (Z.to_nat ptr) value (Data i')).
  set (h1 := Host (with_Data (with_instance (module h) i') copied)
               (events h ++ [Log_get_field message; Call_malloc size])).
  assert (Hlen : length copied = length (Data i'))
    by (unfold copied; by rewrite length_inserts).
  assert (Hr : bind (PutUint32 (I32 a2) (int32 (I32 a2 + 4)) (uint32 ptr))
      (fun _ =>
         bind (PutUint32 (I32 a3) (int32 (I32 a3 + 4)) (uint32 size))
           (fun _ => ok 0)) h1
    = (Done (Result (Some [NewI32 (Status_int32 StatusOK)]) None),
       Host (with_Data (module h1)
               (list_inserts (Z.to_nat (I32 a3)) (le_bytes 4 (uint32 size))
                  (list_inserts (Z.to_nat (I32 a2)) (le_bytes 4 (uint32 ptr))
                     copied)))
            (events h1))).
  { unfold bind at 1. rewrite PutUint32_done.
    2: { by eapply in_bounds_length. }
    unfold bind at 1. rewrite PutUint32_done.
    2: { cbn [module instance with_Data with_instance Data].
         eapply in_bounds_length; [|exact Hs2].
         unfold h1. cbn [module instance with_Data with_instance Data].
         by rewrite length_inserts, Hlen. }
    done. }
  rewrite Hr. unfold memory_after.
  cbn [fst snd module events instance with_Data with_instance Data].
  split; [by rewrite !length_inserts|].
  destruct Hbuf as (? & ? & ? & ?), Hs1 as (? & _ & ? & ?),
    Hs2 as (? & _ & ? & ?).
  unfold copied.
  by rewrite !bytes_at_disjoint by (rewrite ?length_le_bytes; done).
Qed.

End HostEdges.

Section EdgesOnSample.

Import Sample.

Local Ltac compute_bounds :=
  unfold in_bounds, bad_pair; vm_compute;
  intuition (discriminate || reflexivity).

(** The value that does not decode: InvalidArgument, with its error. *)
Lemma status_and_error_witness :
  status_of (fst (putField Json.Unmarshal (args [0; 7; 7; 4]) h0)) <>
    Some (Status_int32 StatusNotFound) /\
  status_of (fst (getField Json.Marshal (args [0; 7; 16]) h0)) <>
    Some (Status_int32 StatusNotFound).
Proof.
  split.
  - exact (proj2 (status_and_error Json.Marshal Json.Unmarshal h0
                    (args [0; 7; 7; 4]) 0 _ (or_intror (or_introl eq_refl)))).
  - exact (proj2 (status_and_error Json.Marshal Json.Unmarshal h0
                    (args [0; 7; 16]) 0 _ (or_introl eq_refl))).
Defined.

(** A message in range; a message at the pointer [0xffffffff]; eight bytes
    that pass the end of the memory; a value buffer that does. *)
Lemma access_domain_witness :
  (exists r h', log (args [1; 0; 7]) h0 = (Done r, h')) /\
  out_of_bounds (log (args [1; -1; 2]) h0) h0 /\
  out_of_bounds (getCurrentTime 5 (args [121]) h0) h0 /\
  out_of_bounds (putField Json.Unmarshal (args [0; 7; 7; 400]) h0) h0.
Proof.
  split; [|split; [|split]].
  - destruct (access_domain Json.Unmarshal h0
                (NewI32 1) (NewI32 0) (NewI32 7) (NewI32 0) 0 eq_refl)
      as (Hlog & _).
    apply Hlog. compute_bounds.
  - destruct (access_domain Json.Unmarshal h0
                (NewI32 1) (NewI32 (-1)) (NewI32 2) (NewI32 0) 0 eq_refl)
      as (_ & _ & _ & Hout & _ & _ & Hhigh).
    apply Hout, Hhigh; [apply I32_range..|]. left. vm_compute. discriminate.
  - destruct (access_domain Json.Unmarshal h0
                (NewI32 121) (NewI32 0) (NewI32 0) (NewI32 0) 5 eq_refl)
      as (_ & _ & _ & _ & Htime & _).
    apply Htime. compute_bounds.
  - destruct (access_domain Json.Unmarshal h0
                (NewI32 0) (NewI32 7) (NewI32 7) (NewI32 400) 0 eq_refl)
      as (_ & _ & _ & _ & _ & Hput & _).
    apply Hput. intros [_ Hvalue]. revert Hvalue. compute_bounds.
Defined.

(** The first slot two bytes from the end of the memory; then the second. *)
Lemma getField_partial_write_witness :
  bytes_at (memory_after (getField Json.Marshal (args [0; 7; 126; 20]) h0))
    64 46 = encoded /\
  fst (getField Json.Marshal (args [0; 7; 126; 20]) h0) =
    Panicked (SliceBoundsOutOfRange 126 130 128) /\
  fst (getField Json.Marshal (args [0; 7; 16; 126]) h0) =
    Panicked (SliceBoundsOutOfRange 126 130 128).
Proof.
  pose proof (getField_partial_write Json.Marshal h0
                (NewI32 0) (NewI32 7) (NewI32 126) (NewI32 20) encoded 64
                {| GetMemory_err := None; Data := memory0; globals := [110] |}
                eq_refl) as H1.
  pose proof (getField_partial_write Json.Marshal h0
                (NewI32 0) (NewI32 7) (NewI32 16) (NewI32 126) encoded 64
                {| GetMemory_err := None; Data := memory0; globals := [110] |}
                eq_refl) as H2.
  cbv zeta in H1, H2.
  destruct H1 as ((Hpanic & _ & Hbytes & _) & _).
  - compute_bounds.
  - reflexivity.
  - reflexivity.
  - reflexivity.
  - compute_bounds.
  - compute_bounds.
  - destruct H2 as (_ & Hsecond).
    + compute_bounds.
    + reflexivity.
    + reflexivity.
    + reflexivity.
    + compute_bounds.
    + destruct Hsecond as (Hpanic2 & _).
      * compute_bounds.
      * compute_bounds.
      * split; [exact Hbytes|]. split; [exact Hpanic|exact Hpanic2].
Defined.

(** Both out-parameters at 16. *)
Lemma getField_same_slot_witness :
  fst (getField Json.Marshal (args [0; 7; 16; 16]) h0) =
    Done (Result (Some [NewI32 0]) None) /\
  le_value
    (bytes_at (memory_after (getField Json.Marshal (args [0; 7; 16; 16]) h0))
       16 4) = 46.
Proof.
  pose proof (getField_same_slot Json.Marshal h0
                (NewI32 0) (NewI32 7) (NewI32 16) (NewI32 16) encoded 64
                {| GetMemory_err := None; Data := memory0; globals := [110] |}
                eq_refl) as H.
  cbv zeta in H. apply H.
  - compute_bounds.
  - reflexivity.
  - reflexivity.
  - reflexivity.
  - compute_bounds.
  - compute_bounds.
  - reflexivity.
Defined.

(** The name at 0, which lies apart from the buffer at 64 and the slots
    at 16 and 20, is still there after the call. *)
Lemma getField_hit_frame_witness :
  bytes_at (memory_after (getField Json.Marshal (args [0; 7; 16; 20]) h0)) 0 7
  = message.
Proof.
  pose proof (getField_hit_frame Json.Marshal h0
                (NewI32 0) (NewI32 7) (NewI32 16) (NewI32 20) encoded 64
                {| GetMemory_err := None; Data := memory0; globals := [110] |}
                0 7 eq_refl) as H.
  cbv zeta in H. destruct H as (_ & Hframe).
  - compute_bounds.
  - reflexivity.
  - reflexivity.
  - reflexivity.
  - compute_bounds.
  - compute_bounds.
  - compute_bounds.
  - discriminate.
  - discriminate.
  - unfold disjoint. vm_compute. intuition discriminate.
  - unfold disjoint. vm_compute. intuition discriminate.
  - unfold disjoint. vm_compute. intuition discriminate.
  - exact Hframe.
Defined.

End EdgesOnSample.
